(** * Conversion task orchestration: multipart ingestion, task registry,
      artifact retrieval and batch dispatch

    A shallow embedding of [web_server.py] (the request handler
    [PDFToWordHandler]: [handle_convert], its background [convert_thread],
    [handle_download], [do_GET], [serve_static_file]; [run_server]), of
    [batch_convert.py] ([process_file], [batch_convert], [main]) and of
    [pdf_to_word_ocr.py] ([perform_ocr], [create_word_document],
    [convert_pdf_to_word]), with the properties the specification states
    about them and further properties of the code.

    Python values are modelled as follows.
    - [bytes] is [list byte]; [str] is a list of code points ([list N]).
    - a [dict] is a [gmap]; the directory listing of the artifact area is
      a list, because [handle_download] serves the first match in listing
      order.
    - an exception is an explicit outcome: [option] where only one kind of
      exception can escape, a dedicated inductive otherwise.
    - the functions of the Python runtime and of third-party packages that
      the code calls but does not define ([int], Werkzeug's
      [secure_filename], the filesystem probes, the conversion engine) are
      parameters, gathered in a class for each program: every theorem
      holds for all of them.
    - [uuid.uuid4] is modelled by its contract, an identifier not issued
      before; a call of the conversion engine returns or raises. *)

From Stdlib Require Import ZArith NArith QArith List Bool Lia.
From Stdlib Require Import Strings.Byte Strings.Ascii Strings.String DecimalString.
From stdpp Require Import gmap list.

Set Default Proof Using "Type".

(** ** Python sequences *)

Abbreviation bytes := (list byte).
Abbreviation str := (list N).

#[global] Instance byte_eq_dec : EqDecision byte := Byte.byte_eq_dec.
#[global] Instance byte_countable : Countable byte :=
  inj_countable Byte.to_N Byte.of_N Byte.of_to_N.

(** Byte and text literals of the source, written as Rocq strings (ASCII
    only; control characters are spelled out below). *)
Definition b (s : string) : bytes := list_byte_of_string s.
Definition u (s : string) : str := (λ c, Byte.to_N c) <$> list_byte_of_string s.

Definition CRLF : bytes := [x0d; x0a].

Module Py.

Section Seq.
Context {A : Type} `{EqDecision A}.

(** [s.startswith(p)] *)
Fixpoint startswith (p s : list A) : bool :=
  match p, s with
  | [], _ => true
  | _ :: _, [] => false
  | x :: p', y :: s' => bool_decide (x = y) && startswith p' s'
  end.

(** [s.endswith(p)] *)
Definition endswith (p s : list A) : bool :=
  startswith (reverse p) (reverse s).

(** [p in s], substring test *)
Fixpoint contains (p s : list A) : bool :=
  startswith p s || match s with [] => false | _ :: s' => contains p s' end.

(** [s.split(sep, 1)] when the separator occurs: the text before and
    after its first occurrence.  [None] when it does not occur, where
    Python returns the one-element list [[s]].  [sep] is non-empty at
    every call site. *)
Fixpoint split_once_go (sep cur s : list A) : option (list A * list A) :=
  if startswith sep s then Some (reverse cur, drop (length sep) s)
  else match s with
       | [] => None
       | c :: s' => split_once_go sep (c :: cur) s'
       end.
Definition split_once (sep s : list A) : option (list A * list A) :=
  split_once_go sep [] s.

(** [s.split(sep)]: the segments between the non-overlapping occurrences
    of [sep], found left to right.  [skip] counts the elements of a
    matched separator still to be dropped.  [sep] is non-empty at every
    call site (Python raises [ValueError] on an empty separator). *)
Fixpoint split_go (sep : list A) (skip : nat) (cur s : list A)
  : list (list A) :=
  match s with
  | [] => [reverse cur]
  | c :: s' =>
      match skip with
      | S k => split_go sep k cur s'
      | O => if startswith sep s
             then reverse cur :: split_go sep (length sep - 1) [] s'
             else split_go sep 0 (c :: cur) s'
      end
  end.
Definition split (sep s : list A) : list (list A) := split_go sep 0 [] s.

(** [s.rsplit(sep, 1)[0]] for a one-element separator: the text before
    the last occurrence of [c], or all of [s] when [c] does not occur. *)
Fixpoint rsplit1_head (c : A) (s : list A) : list A :=
  match s with
  | [] => []
  | x :: s' =>
      if bool_decide (c ∈ s') then x :: rsplit1_head c s'
      else if bool_decide (x = c) then [] else x :: s'
  end.

(** [s.split(c)[-1]] for a one-element separator: the text after the
    last occurrence of [c], or all of [s] when [c] does not occur. *)
Fixpoint last_segment (c : A) (s : list A) : list A :=
  match s with
  | [] => []
  | x :: s' =>
      if bool_decide (c ∈ s') then last_segment c s'
      else if bool_decide (x = c) then s' else x :: s'
  end.

(** [s.lstrip(chars)] with the stripped set given as a predicate *)
Fixpoint lstrip (ws : A → bool) (s : list A) : list A :=
  match s with
  | [] => []
  | c :: s' => if ws c then lstrip ws s' else s
  end.

(** [s.strip(chars)] *)
Definition strip (ws : A → bool) (s : list A) : list A :=
  reverse (lstrip ws (reverse (lstrip ws s))).
End Seq.

(** Whitespace of [bytes.strip()]: space, tab, LF, CR, VT, FF. *)
Definition bytes_isspace (c : byte) : bool :=
  let n := Byte.to_N c in
  ((9 <=? n) && (n <=? 13) || (n =? 32))%N.

(** Whitespace of [str.strip()]: the code points for which
    [str.isspace] holds. *)
Definition str_isspace (n : N) : bool :=
  ((9 <=? n) && (n <=? 13) || (28 <=? n) && (n <=? 32)
   || (n =? 133) || (n =? 160) || (n =? 5760)
   || (8192 <=? n) && (n <=? 8202)
   || (n =? 8232) || (n =? 8233) || (n =? 8239) || (n =? 8287)
   || (n =? 12288))%N.

Definition bytes_strip : bytes → bytes := strip bytes_isspace.
Definition str_strip : str → str := strip str_isspace.

(** [value.strip(chars)] with [chars] the double-quote character *)
Definition str_strip_quotes : str → str := strip (λ n, (n =? 34)%N).

(** [bytes.lower()]: ASCII letters only. *)
Definition byte_lower (c : byte) : byte :=
  let n := Byte.to_N c in
  if ((65 <=? n) && (n <=? 90))%N
  then default c (Byte.of_N (n + 32)) else c.
Definition bytes_lower (s : bytes) : bytes := byte_lower <$> s.

(** [str.lower()] restricted to its effect on ASCII letters.  The code
    only asks whether the lowered text ends in ['.pdf']; no code point
    outside ASCII lowers to one of [.], [p], [d], [f], so the answer is
    the one Python gives.  *)
Definition cp_lower (n : N) : N :=
  if ((65 <=? n) && (n <=? 90))%N then (n + 32)%N else n.
Definition str_lower (s : str) : str := cp_lower <$> s.

(** *** UTF-8 *)

Definition is_cont (n : N) : bool := ((128 <=? n) && (n <? 192))%N.

(** [bytes.decode('utf-8')] (strict): [None] is [UnicodeDecodeError].
    Overlong forms, surrogates and code points above U+10FFFF are
    rejected. *)
Fixpoint utf8_decode_N (s : list N) : option str :=
  match s with
  | [] => Some []
  | b0 :: t0 =>
      if (b0 <? 128)%N then cons b0 <$> utf8_decode_N t0
      else if ((194 <=? b0) && (b0 <? 224))%N then
        match t0 with
        | b1 :: t1 =>
            if is_cont b1
            then cons ((b0 - 192) * 64 + (b1 - 128))%N <$> utf8_decode_N t1
            else None
        | _ => None
        end
      else if ((224 <=? b0) && (b0 <? 240))%N then
        match t0 with
        | b1 :: b2 :: t2 =>
            let cp := ((b0 - 224) * 4096 + (b1 - 128) * 64 + (b2 - 128))%N in
            if is_cont b1 && is_cont b2 && (2048 <=? cp)%N
               && negb ((55296 <=? cp) && (cp <=? 57343))%N
            then cons cp <$> utf8_decode_N t2
            else None
        | _ => None
        end
      else if ((240 <=? b0) && (b0 <? 245))%N then
        match t0 with
        | b1 :: b2 :: b3 :: t3 =>
            let cp := ((b0 - 240) * 262144 + (b1 - 128) * 4096
                       + (b2 - 128) * 64 + (b3 - 128))%N in
            if is_cont b1 && is_cont b2 && is_cont b3
               && (65536 <=? cp)%N && (cp <=? 1114111)%N
            then cons cp <$> utf8_decode_N t3
            else None
        | _ => None
        end
      else None
  end.
Definition decode_utf8 (s : bytes) : option str :=
  utf8_decode_N (Byte.to_N <$> s).

(** [str.encode('utf-8')]: [None] is [UnicodeEncodeError] (a lone
    surrogate; a value above U+10FFFF is not a code point). *)
Definition byte_of (n : N) : byte := default x00 (Byte.of_N n).
Definition encode_cp (cp : N) : option bytes :=
  if (cp <? 128)%N then Some [byte_of cp]
  else if (cp <? 2048)%N then
    Some [byte_of (192 + cp / 64); byte_of (128 + cp mod 64)]
  else if ((55296 <=? cp) && (cp <=? 57343))%N then None
  else if (cp <? 65536)%N then
    Some [byte_of (224 + cp / 4096); byte_of (128 + (cp / 64) mod 64);
          byte_of (128 + cp mod 64)]
  else if (cp <=? 1114111)%N then
    Some [byte_of (240 + cp / 262144); byte_of (128 + (cp / 4096) mod 64);
          byte_of (128 + (cp / 64) mod 64); byte_of (128 + cp mod 64)]
  else None.
Fixpoint encode_utf8 (s : str) : option bytes :=
  match s with
  | [] => Some []
  | cp :: s' =>
      match encode_cp cp, encode_utf8 s' with
      | Some x, Some y => Some (x ++ y)
      | _, _ => None
      end
  end.

(** [s.find(sep)]: the lowest index at which [sep] occurs in [s];
    [None] where Python returns [-1]. *)
Fixpoint find_go {A} `{EqDecision A} (sep : list A) (i : nat) (s : list A)
  : option nat :=
  if startswith sep s then Some i
  else match s with
       | [] => None
       | _ :: s' => find_go sep (S i) s'
       end.
Definition find {A} `{EqDecision A} (sep s : list A) : option nat :=
  find_go sep 0 s.

(** The text a writer produces for the separator [sep]: each part
    followed by the separator, then [tail]. *)
Fixpoint framed {A} (sep : list A) (parts : list (list A)) (tail : list A)
  : list A :=
  match parts with
  | [] => tail
  | p :: parts' => p ++ sep ++ framed sep parts' tail
  end.


(** [sep.join(parts)] *)
Fixpoint join {A} (sep : list A) (parts : list (list A)) : list A :=
  match parts with
  | [] => []
  | [x] => x
  | x :: parts' => x ++ sep ++ join sep parts'
  end.

(** *** [os.path.normpath] on a POSIX host *)

(** The number of leading slashes that are kept: two for exactly two,
    one for one and for three or more. *)
Definition initial_slashes (path : str) : nat :=
  if startswith [47; 47; 47]%N path then 1
  else if startswith [47; 47]%N path then 2
  else if startswith [47%N] path then 1
  else 0.

(** One turn of the loop over the components.  [new_comps] is held
    with its last element first: an empty component and [.] are
    skipped; [..] removes the component before it, except at the start
    of a relative path or after another [..], where it is kept, and at
    the root, where it is dropped. *)
Definition normpath_step (rooted : bool) (new_comps : list str) (comp : str)
  : list str :=
  if bool_decide (comp = []) || bool_decide (comp = [46%N]) then new_comps
  else if negb (bool_decide (comp = [46; 46]%N))
          || (negb rooted && bool_decide (new_comps = []))
          || bool_decide (head new_comps = Some [46; 46]%N)
  then comp :: new_comps
  else tail new_comps.

Definition normpath (path : str) : str :=
  match path with
  | [] => [46%N]
  | _ :: _ =>
      let k := initial_slashes path in
      let comps :=
        foldl (normpath_step (bool_decide (k ≠ 0%nat))) [] (split [47%N] path) in
      match replicate k 47%N ++ join [47%N] (reverse comps) with
      | [] => [46%N]
      | c :: p => c :: p
      end
  end.
End Py.

(** ** The interactive service ([web_server.py]) *)

Module Web.

(** *** Data model *)

(** The loop variables of the multipart loop in [handle_convert]. *)
Record Form := {
  pdf_file : option bytes;
  pdf_filename : option str;
  ocr_lang : str;
  dpi : Z
}.

(** Their values before the loop (lines 240-243). *)
Definition form0 : Form :=
  {| pdf_file := None; pdf_filename := None; ocr_lang := u "eng"; dpi := 300 |}.

(** What the body of the loop learns from one segment of the body,
    before it touches the loop variables. *)
Inductive Part :=
| Skipped          (** blank segment, or the closing [--] *)
| Broken           (** an exception reached the segment's [except Exception] *)
| NoDisposition    (** no [content-disposition] header *)
| Disposition (parts_dict : gmap str str) (content : bytes).

Inductive Status := processing | completed | failed.

(** An entry of [conversion_tasks]. *)
Record Task := {
  status : Status;
  progress : Z;
  download_url : option str;
  filename : option str;
  error : option str
}.

(** The request as [handle_convert] reads it: the two headers it looks
    up, and the bytes still to be read from the connection. *)
Record Request := {
  content_type_header : option str;
  content_length_header : option str;
  rfile : bytes
}.

(** The JSON documents [handle_convert] serves. *)
Inductive ErrorMsg :=
| InvalidContentType      (** ['Invalid content type'] *)
| InvalidContentLength    (** ['Invalid content length'] *)
| NoPdfFileUploaded       (** ['No PDF file uploaded'] *)
| InvalidFileType         (** ['Invalid file type. Only PDF files are supported.'] *)
| ServerError.            (** ['Server error: ...'] *)

Inductive Reply :=
| ReplyError (e : ErrorMsg)
| ReplyTask (task_id : str) (reported : Status)
| NoResponse.   (** an exception escaped the handler: nothing is served *)

(** Where a [convert_thread] stands. *)
Inductive Pc :=
| Spawned                    (** started, nothing executed yet *)
| Converting                 (** inside [convert_pdf_to_word] *)
| Returned (success : bool)  (** the engine returned *)
| Raising (msg : str)        (** the engine raised; at the handler *)
| Cleanup                    (** about to remove the upload *)
| Done.

(** A [convert_thread] closure: the variables it captured, and its
    position. *)
Record Worker := {
  file_id : str;
  pdf_path : str;
  output_path : str;
  output_filename : str;
  lang : str;
  resolution : Z;
  pc : Pc
}.

(** What the conversion engine did on one call. *)
Inductive EngineOutcome :=
| Converted (artifact : bytes)   (** wrote the document, returned [True] *)
| NotConverted                   (** returned [False] *)
| EngineRaised (msg : str).

(** The module-level state: the registry, and the two temporary
    directories, each as the names it holds.  An entry of the download
    directory that cannot be opened or read holds [None]. *)
Record Store := {
  conversion_tasks : gmap str Task;
  upload_dir : gmap str bytes;
  download_dir : list (str * option bytes)
}.

(** The process: the module-level state, the conversion threads, and
    the request handler if one is at work.  [HTTPServer] handles one
    request at a time; [responding] holds the reply that the handler of
    the current POST has prepared and not yet served. *)
Record Server := {
  store : Store;
  threads : list Worker;
  responding : option Reply
}.

Definition store0 : Store :=
  {| conversion_tasks := ∅; upload_dir := ∅; download_dir := [] |}.
Definition server0 : Server :=
  {| store := store0; threads := []; responding := None |}.

(** *** Multipart parsing (lines 245-291) *)

(** One header line into the [headers] dict (lines 258-260). *)
Definition add_header (headers : gmap bytes bytes) (header : bytes)
  : gmap bytes bytes :=
  if Py.contains (b ":") header then
    match Py.split_once (b ":") header with
    | Some (name, value) =>
        <[Py.bytes_lower (Py.bytes_strip name) := Py.bytes_strip value]> headers
    | None => headers
    end
  else headers.

Definition part_headers (headers_raw : bytes) : gmap bytes bytes :=
  foldl add_header ∅ (Py.split CRLF headers_raw).

(** One item of the disposition into [parts_dict] (lines 267-270). *)
Definition add_item (parts_dict : gmap str str) (item : str) : gmap str str :=
  let item := Py.str_strip item in
  if Py.contains (u "=") item then
    match Py.split_once (u "=") item with
    | Some (key, value) => <[key := Py.str_strip_quotes value]> parts_dict
    | None => parts_dict
    end
  else parts_dict.

Definition disposition_dict (disposition : str) : gmap str str :=
  foldl add_item ∅ (Py.split (u ";") disposition).

(** Lines 247-270: from a segment to its [parts_dict] and content. *)
Definition read_part (part : bytes) : Part :=
  if bool_decide (Py.bytes_strip part = [])
     || bool_decide (Py.bytes_strip part = b "--")
  then Skipped
  else
    match Py.split_once (CRLF ++ CRLF) part with
    | None => Broken
    | Some (headers_raw, content) =>
        let headers := part_headers (Py.bytes_strip headers_raw) in
        match headers !! b "content-disposition" with
        | None => NoDisposition
        | Some value =>
            match Py.decode_utf8 value with
            | None => Broken
            | Some disposition =>
                Disposition (disposition_dict disposition) content
            end
        end
    end.

(** The content of a file part, without its trailing line terminator
    (lines 277-278). *)
Definition file_content (content : bytes) : bytes :=
  if Py.endswith CRLF content then take (length content - 2) content
  else content.

(** What the handler calls but neither it nor this development defines:
    [int(text)], with [None] for [ValueError], and
    [werkzeug.utils.secure_filename]; and the largest length for which
    the reader of the connection can allocate its result on the
    machine. *)
Class Runtime := {
  py_int : str → option Z;
  secure_filename : str → str;
  read_limit : N
}.

Section Handler.
Context {RT : Runtime}.

(** [int(content.decode('utf-8').strip())]; [None] is [ValueError],
    which [UnicodeDecodeError] is a subclass of. *)
Definition parse_dpi (content : bytes) : option Z :=
  Py.decode_utf8 content ≫= λ text, py_int (Py.str_strip text).

(** Lines 272-288: the assignments of one segment. *)
Definition update_form (f : Form) (p : Part) : Form :=
  match p with
  | Disposition parts_dict content =>
      match parts_dict !! u "filename" with
      | Some name =>
          if bool_decide (parts_dict !! u "name" = Some (u "pdf_file")) then
            {| pdf_file := Some (file_content content);
               pdf_filename := Some name;
               ocr_lang := ocr_lang f; dpi := dpi f |}
          else f
      | None =>
          match parts_dict !! u "name" with
          | Some name =>
              if bool_decide (name = u "ocr_lang") then
                match Py.decode_utf8 content with
                | Some text =>
                    {| pdf_file := pdf_file f; pdf_filename := pdf_filename f;
                       ocr_lang := Py.str_strip text; dpi := dpi f |}
                | None => f
                end
              else if bool_decide (name = u "dpi") then
                match parse_dpi content with
                | Some n =>
                    {| pdf_file := pdf_file f; pdf_filename := pdf_filename f;
                       ocr_lang := ocr_lang f; dpi := n |}
                | None => f
                end
              else f
          | None => f
          end
      end
  | Skipped | Broken | NoDisposition => f
  end.

Definition process_part (f : Form) (part : bytes) : Form :=
  update_form f (read_part part).

(** The whole loop. *)
Definition parse_form (parts : list bytes) : Form :=
  foldl process_part form0 parts.

(** *** [handle_convert] *)

(** [int(self.headers.get('Content-Length', 0))] *)
Definition content_length (req : Request) : option Z :=
  match content_length_header req with
  | None => Some 0%Z
  | Some text => py_int text
  end.

(** [self.rfile.read(n)] on the buffered reader of the connection:
    [n] bytes, fewer at end of stream; everything up to the end of the
    stream when [n] is [-1].  [None] is an exception: the [ValueError]
    it raises when [n] is below [-1], the [OverflowError] or
    [MemoryError] when [n] is more than it can allocate. *)
Definition rfile_read (n : Z) (stream : bytes) : option bytes :=
  if (n <? -1)%Z || (Z.of_N read_limit <? n)%Z then None
  else if (n <? 0)%Z then Some stream
  else Some (take (Z.to_nat n) stream).

(** Lines 233-234; [None] is the [IndexError] of a content type without
    [=], or an encoding error. *)
Definition boundary_of (content_type : str) : option bytes :=
  Py.split (u "=") content_type !! 1%nat ≫= λ x, Py.encode_utf8 (Py.str_strip x).

(** Lines 237-291. *)
Definition form_of (content_type : str) (form_data : bytes) : option Form :=
  boundary_of content_type ≫= λ boundary,
  Some (parse_form (Py.split (b "--" ++ boundary) form_data)).

(** Lines 308, 313-314: the names under which the upload and the
    artifact are stored, relative to their directories. *)
Definition upload_name (file_id pdf_filename : str) : str :=
  file_id ++ u "_" ++ pdf_filename.
Definition docx_name (pdf_filename : str) : str :=
  Py.rsplit1_head 46%N pdf_filename ++ u ".docx".

(** Lines 293-345 and the reply prepared for lines 347-351, with
    [file_id] the value [uuid.uuid4()] returns when it is called: the
    checks on the form, the upload written, the thread started at
    [Spawned], and the reply that [serve_json] is then called with.
    The registry is not touched here.  The write of the upload and the
    start of the thread are taken to succeed (an exception of either
    would end in the reply of line 355). *)
Definition submit (f : Form) (file_id : str) (s : Server) : Reply * Server :=
  match pdf_file f, pdf_filename f with
  | Some data, Some name =>
      let pdf_filename := secure_filename name in
      if negb (Py.endswith (u ".pdf") (Py.str_lower pdf_filename))
      then (ReplyError InvalidFileType, s)
      else
        let pdf_path := upload_name file_id pdf_filename in
        let output_filename := docx_name pdf_filename in
        let output_path := upload_name file_id output_filename in
        let thread :=
          {| file_id := file_id; pdf_path := pdf_path;
             output_path := output_path;
             output_filename := output_filename;
             lang := ocr_lang f; resolution := dpi f;
             pc := Spawned |} in
        (ReplyTask file_id processing,
         {| store :=
              {| conversion_tasks := conversion_tasks (store s);
                 upload_dir := <[pdf_path := data]> (upload_dir (store s));
                 download_dir := download_dir (store s) |};
            threads := threads s ++ [thread];
            responding := responding s |})
  | _, _ => (ReplyError NoPdfFileUploaded, s)
  end.

(** [handle_convert] (lines 212-355): the reply it serves, and the
    server when it serves it as far as the handler has changed it.  The
    read of line 228 is outside every [try]: when it raises, the
    exception escapes the handler and nothing is served. *)
Definition handle_convert (req : Request) (file_id : str) (s : Server)
  : Reply * Server :=
  let content_type := default [] (content_type_header req) in
  if negb (Py.startswith (u "multipart/form-data") content_type)
  then (ReplyError InvalidContentType, s)
  else
    match content_length req with
    | None => (ReplyError InvalidContentLength, s)
    | Some n =>
        match rfile_read n (rfile req) with
        | None => (NoResponse, s)
        | Some form_data =>
            match form_of content_type form_data with
            | None => (ReplyError ServerError, s)
            | Some f => submit f file_id s
            end
        end
    end.

(** The segments the loop of [handle_convert] runs over, when the
    request gets that far. *)
Definition segments (req : Request) : option (list bytes) :=
  let content_type := default [] (content_type_header req) in
  if Py.startswith (u "multipart/form-data") content_type then
    n ← content_length req;
    form_data ← rfile_read n (rfile req);
    boundary ← boundary_of content_type;
    Some (Py.split (b "--" ++ boundary) form_data)
  else None.

(** An attribute of a segment's disposition, if it has one. *)
Definition part_attr (key : str) (part : bytes) : option str :=
  match read_part part with
  | Disposition parts_dict _ => parts_dict !! key
  | _ => None
  end.

(** The file a segment carries, if it is a file part: a disposition
    with a [filename] and the field name [pdf_file]. *)
Definition file_part (part : bytes) : option (str * bytes) :=
  match read_part part with
  | Disposition parts_dict content =>
      name ← parts_dict !! u "filename";
      if bool_decide (parts_dict !! u "name" = Some (u "pdf_file"))
      then Some (name, file_content content) else None
  | _ => None
  end.

(** The content a segment carries, if it is a field part of the given
    name: a disposition with that [name] and no [filename]. *)
Definition field_part (name : str) (part : bytes) : option bytes :=
  match read_part part with
  | Disposition parts_dict content =>
      if bool_decide (parts_dict !! u "filename" = None)
         && bool_decide (parts_dict !! u "name" = Some name)
      then Some content else None
  | _ => None
  end.

(** *** [convert_thread] (lines 317-339) *)

Definition task_processing : Task :=
  {| status := processing; progress := 0; download_url := None;
     filename := None; error := None |}.

Definition task_completed (w : Worker) : Task :=
  {| status := completed; progress := 100;
     download_url := Some (u "/download/" ++ output_path w);
     filename := Some (output_filename w); error := None |}.

Definition task_failed (msg : str) : Task :=
  {| status := failed; progress := 100; download_url := None;
     filename := None; error := Some msg |}.

(** [conversion_tasks[k] = t] *)
Definition set_task (k : str) (t : Task) (st : Store) : Store :=
  {| conversion_tasks := <[k := t]> (conversion_tasks st);
     upload_dir := upload_dir st; download_dir := download_dir st |}.

(** The engine saving its document: an existing name is overwritten in
    place, a new one is listed last. *)
Fixpoint dir_write (name : str) (data : bytes) (dir : list (str * option bytes))
  : list (str * option bytes) :=
  match dir with
  | [] => [(name, Some data)]
  | (n, d) :: dir' =>
      if bool_decide (n = name) then (n, Some data) :: dir'
      else (n, d) :: dir_write name data dir'
  end.

Definition at_pc (w : Worker) (p : Pc) : Worker :=
  {| file_id := file_id w; pdf_path := pdf_path w;
     output_path := output_path w; output_filename := output_filename w;
     lang := lang w; resolution := resolution w; pc := p |}.

(** One atomic step of a [convert_thread]; [o] is what the engine does
    if this step is the call of [convert_pdf_to_word].  [None]: the
    thread has finished. *)
Definition worker_step (o : EngineOutcome) (w : Worker) (st : Store)
  : option (Worker * Store) :=
  match pc w with
  | Spawned =>
      Some (at_pc w Converting, set_task (file_id w) task_processing st)
  | Converting =>
      match o with
      | Converted artifact =>
          Some (at_pc w (Returned true),
                {| conversion_tasks := conversion_tasks st;
                   upload_dir := upload_dir st;
                   download_dir :=
                     dir_write (output_path w) artifact (download_dir st) |})
      | NotConverted => Some (at_pc w (Returned false), st)
      | EngineRaised msg => Some (at_pc w (Raising msg), st)
      end
  | Returned true =>
      Some (at_pc w Cleanup, set_task (file_id w) (task_completed w) st)
  | Returned false =>
      Some (at_pc w Cleanup,
            set_task (file_id w) (task_failed (u "Conversion failed")) st)
  | Raising msg =>
      Some (at_pc w Done, set_task (file_id w) (task_failed msg) st)
  | Cleanup =>
      Some (at_pc w Done,
            {| conversion_tasks := conversion_tasks st;
               upload_dir := delete (pdf_path w) (upload_dir st);
               download_dir := download_dir st |})
  | Done => None
  end.

(** The steps [w] has to take before it has written the final state
    of its task. *)
Definition pending (w : Worker) : nat :=
  match pc w with
  | Spawned => 3
  | Converting => 2
  | Returned _ => 1
  | Raising _ => 1
  | Cleanup => 0
  | Done => 0
  end.

(** *** Retrieval ([handle_download], [do_GET]) *)

Inductive Download :=
| Served (file_name : str) (data : bytes)   (** 200, attachment *)
| Error500
| NotFound404.

(** [handle_download] over [os.listdir(DOWNLOAD_DIR)] in the order it
    is returned. *)
Fixpoint handle_download (listing : list (str * option bytes)) (file_id : str)
  : Download :=
  match listing with
  | [] => NotFound404
  | (file_name, content) :: rest =>
      if Py.startswith file_id file_name then
        match content with
        | Some data => Served file_name data
        | None => Error500
        end
      else handle_download rest file_id
  end.

Inductive GetReply :=
| ServeIndex
| DownloadReply (d : Download)
| ApiStatusOk
| ServeStatic (file_path : str)
| NotFound.

(** [do_GET], with [path] the path component of the request target. *)
Definition do_GET (path : str) (st : Store) : GetReply :=
  if bool_decide (path = u "/") || bool_decide (path = u "/index.html")
  then ServeIndex
  else if Py.startswith (u "/download/") path
  then DownloadReply
         (handle_download (download_dir st) (Py.last_segment 47%N path))
  else if bool_decide (path = u "/api/status") then ApiStatusOk
  else if Py.startswith (u "/static/") path then ServeStatic (drop 8 path)
  else if bool_decide (46%N ∈ drop 1 path) then ServeStatic (drop 1 path)
  else NotFound.

(** *** The server as a transition system

    The handler of a POST runs up to [thread.start()] (line 345), or to
    the point where it has its error; it serves its reply (lines
    347-351) in a step of its own, so that the threads, the one just
    started among them, may take steps in between.  For [NoResponse]
    that step is the handler ending with nothing served.  A GET is
    handled in one step.  One thread takes one step.  No request is
    taken up while a handler is at work.  [uuid4] is modelled by its
    contract: the identifier it returns has not been issued before. *)

Inductive Label :=
| Submit (req : Request) (fid : str) (reply : Reply)
| Respond (reply : Reply)
| Work (fid : str) (o : EngineOutcome)
| Get (path : str) (reply : GetReply).

(** The server with the handler at [r]. *)
Definition answering (r : option Reply) (s : Server) : Server :=
  {| store := store s; threads := threads s; responding := r |}.

Inductive step : Server → Label → Server → Prop :=
| step_submit s req fid reply s' :
    responding s = None →
    (∀ w, w ∈ threads s → file_id w ≠ fid) →
    handle_convert req fid s = (reply, s') →
    step s (Submit req fid reply) (answering (Some reply) s')
| step_respond s reply :
    responding s = Some reply →
    step s (Respond reply) (answering None s)
| step_work st ws1 w ws2 r o w' st' :
    worker_step o w st = Some (w', st') →
    step {| store := st; threads := ws1 ++ w :: ws2; responding := r |}
         (Work (file_id w) o)
         {| store := st'; threads := ws1 ++ w' :: ws2; responding := r |}
| step_get s path :
    responding s = None →
    step s (Get path (do_GET path (store s))) s.

Inductive steps : Server → list Label → Server → Prop :=
| steps_nil s : steps s [] s
| steps_cons s l s' ls s'' :
    step s l s' → steps s' ls s'' → steps s (l :: ls) s''.

Definition reachable (s : Server) : Prop := ∃ ls, steps server0 ls s.

(** The steps of the thread of task [k] in a run. *)
Definition is_work (k : str) (l : Label) : bool :=
  match l with
  | Work fid _ => bool_decide (fid = k)
  | Submit _ _ _ | Respond _ | Get _ _ => false
  end.

Fixpoint work_count (k : str) (ls : list Label) : nat :=
  match ls with
  | [] => 0
  | l :: ls' => (if is_work k l then 1 else 0) + work_count k ls'
  end.

(** A step of a thread, of whatever task. *)
Definition thread_step (l : Label) : bool :=
  match l with
  | Work _ _ => true
  | Submit _ _ _ | Respond _ | Get _ _ => false
  end.

(** [n] bounds the steps the thread of [k] has to take before the final
    state of the task is written. *)
Definition within (k : str) (s : Server) (n : nat) : Prop :=
  ∃ w, w ∈ threads s ∧ file_id w = k ∧ (pending w ≤ n)%nat.

(** A task whose final state has been written. *)
Definition terminal (t : Task) : Prop := status t ≠ processing.

(** The identifiers issued so far: one for each thread started. *)
Definition issued (s : Server) : list str := file_id <$> threads s.

(** What the registry holds for the task of a thread, by the position
    of the thread. *)
Definition thread_inv (reg : gmap str Task) (w : Worker) : Prop :=
  match pc w with
  | Spawned => reg !! file_id w = None
  | Converting | Returned _ | Raising _ =>
      ∃ t, reg !! file_id w = Some t ∧ status t = processing
  | Cleanup | Done => ∃ t, reg !! file_id w = Some t ∧ terminal t
  end.

(** The invariant of the reachable states: identifiers are not issued
    twice, the registry agrees with the position of every thread, and
    it has no entry for an identifier that was not issued. *)
Record inv (s : Server) : Prop := {
  inv_nodup : NoDup (issued s);
  inv_threads : Forall (thread_inv (conversion_tasks (store s))) (threads s);
  inv_dom : ∀ k, is_Some (conversion_tasks (store s) !! k) → k ∈ issued s
}.

End Handler.

(** *** A thread on its own, and what the stores hold *)

(** [convert_thread] run to its end: at most [n] steps, the engine
    doing [o] when it is called. *)
Fixpoint run_thread (n : nat) (o : EngineOutcome) (w : Worker) (st : Store)
  : Worker * Store :=
  match n with
  | O => (w, st)
  | S n' =>
      match worker_step o w st with
      | Some (w', st') => run_thread n' o w' st'
      | None => (w, st)
      end
  end.

(** The entry a thread leaves behind, by what the engine did. *)
Definition final_task (o : EngineOutcome) (w : Worker) : Task :=
  match o with
  | Converted _ => task_completed w
  | NotConverted => task_failed (u "Conversion failed")
  | EngineRaised msg => task_failed msg
  end.

(** A readable entry of that name is listed. *)
Definition stored (name : str) (dir : list (str * option bytes)) : Prop :=
  ∃ data, (name, Some data) ∈ dir.

(** The names a thread was started with (lines 308-314). *)
Definition thread_names (w : Worker) : Prop :=
  output_path w = upload_name (file_id w) (output_filename w) ∧
  ∃ pdf_filename, pdf_path w = upload_name (file_id w) pdf_filename ∧
                  output_filename w = docx_name pdf_filename.

(** The entry of the task of a thread, by the position of the thread;
    with the artifact listed once the engine has written it. *)
Definition thread_entry (st : Store) (w : Worker) : Prop :=
  thread_names w ∧
  match pc w with
  | Spawned => True
  | Converting | Returned false | Raising _ =>
      conversion_tasks st !! file_id w = Some task_processing
  | Returned true =>
      conversion_tasks st !! file_id w = Some task_processing ∧
      stored (output_path w) (download_dir st)
  | Cleanup | Done =>
      (conversion_tasks st !! file_id w = Some (task_completed w) ∧
       stored (output_path w) (download_dir st)) ∨
      ∃ msg, conversion_tasks st !! file_id w = Some (task_failed msg)
  end.

(** What a segment sets, field by field: the language of an [ocr_lang]
    field part whose content decodes, the resolution of a [dpi] field
    part whose content is a number. *)
Definition lang_of (part : bytes) : option str :=
  match field_part (u "ocr_lang") part with
  | Some content => Py.str_strip <$> Py.decode_utf8 content
  | None => None
  end.

Definition dpi_of `{Runtime} (part : bytes) : option Z :=
  match field_part (u "dpi") part with
  | Some content => parse_dpi content
  | None => None
  end.

(** The number of segments of a body that set the file, the language,
    the resolution. *)
Definition file_parts (parts : list bytes) : nat :=
  length (List.filter (λ p, bool_decide (is_Some (file_part p))) parts).
Definition lang_parts (parts : list bytes) : nat :=
  length (List.filter (λ p, bool_decide (is_Some (lang_of p))) parts).
Definition dpi_parts `{Runtime} (parts : list bytes) : nat :=
  length (List.filter (λ p, bool_decide (is_Some (dpi_of p))) parts).


(** *** The port the server listens on *)

(** What [s.bind((host, p))] does on a fresh socket: it binds, it
    raises [OSError] (the address is in use), or it raises something
    else (an [OverflowError] for a port outside 0..65535). *)
Inductive Bind := Bound | InUse | BindFault.

(** The loop of lines 368-376 over the ports still to try: the first
    that binds; [port] as it was when none does; [None] when an
    exception other than [OSError] escapes. *)
Fixpoint probe (bind : Z → Bind) (ports : list Z) (port : Z) : option Z :=
  match ports with
  | [] => Some port
  | p :: ports' =>
      match bind p with
      | Bound => Some p
      | InUse => probe bind ports' port
      | BindFault => None
      end
  end.

(** The port [run_server] creates the server on (lines 360-376):
    [port] when it binds, else the choice of the loop over
    [range(port + 1, port + 100)]. *)
Definition choose_port (bind : Z → Bind) (port : Z) : option Z :=
  match bind port with
  | Bound => Some port
  | InUse => probe bind (seqZ (port + 1) 99) port
  | BindFault => None
  end.

(** *** Static files *)

(** The directory of the script, as [serve_static_file] reads it, by
    the path relative to it: whether [os.path.isfile] holds, what
    [mimetypes.guess_type] returns, and the bytes of the file, [None]
    when opening or reading it raises. *)
Record Site := {
  site_isfile : str → bool;
  guess_type : str → option str;
  site_read : str → option bytes
}.

Inductive StaticReply :=
| StaticFile (content_type : str) (data : bytes)   (** 200 *)
| Forbidden403
| StaticNotFound404
| StaticError500.

(** Line 128: [os.path.normpath(file_path).lstrip('/')]. *)
Definition normalized (file_path : str) : str :=
  Py.lstrip (λ c, bool_decide (c = 47%N)) (Py.normpath file_path).

(** [serve_static_file] (lines 125-156). *)
Definition serve_static_file (site : Site) (file_path : str) : StaticReply :=
  let file_path := normalized file_path in
  if Py.contains (u "..") file_path then Forbidden403
  else if negb (site_isfile site file_path) then StaticNotFound404
  else
    let content_type :=
      default (u "application/octet-stream") (guess_type site file_path) in
    match site_read site file_path with
    | Some data => StaticFile content_type data
    | None => StaticError500
    end.
End Web.

(** ** The batch driver ([batch_convert.py]) *)

Module Batch.

(** What one call of [convert_pdf_to_word] does, as [process_file] sees
    it: the flag it returns, with the time the two clock readings around
    the call differ by, or an exception. *)
Inductive EngineResult :=
| Returns (success : bool) (elapsed_time : Q)
| Raises.

Inductive PyError :=
| OSError              (** [os.makedirs]: the directory cannot be created *)
| NotImplementedError  (** [cpu_count]: the number cannot be determined *)
| ValueError           (** [ProcessPoolExecutor]: [max_workers] must be
                           positive; [with_suffix]: the path has an
                           empty name *)
| ZeroDivisionError.

(** A call that returns or lets an exception escape. *)
Inductive Exc (A : Type) :=
| Return (a : A)
| Raise (e : PyError).
Arguments Return {A} a.
Arguments Raise {A} e.

#[global] Instance Exc_bind : MBind Exc := λ A B k m,
  match m with
  | Return a => k a
  | Raise e => Raise e
  end.

(** The engine, whether [os.makedirs(_, exist_ok=True)] succeeds, the
    filesystem probes, [glob.glob(_, recursive=True)],
    [multiprocessing.cpu_count()] with [None] for the
    [NotImplementedError] it raises where the number cannot be
    determined, the [pathlib] operations, and the largest pool the
    platform allows (61 on Windows, no limit elsewhere).
    [with_suffix_docx] is [Path(_).with_suffix('.docx')]: [None] is the
    [ValueError] it raises on a path with an empty name, such as
    [./]. *)
Class Env := {
  convert_pdf_to_word : str → str → str → Z → EngineResult;
  makedirs : str → bool;
  isdir : str → bool;
  isfile : str → bool;
  glob : str → list str;
  cpu_count : option Z;
  with_suffix_docx : str → option str;
  path_name : str → str;
  path_join : str → str → str;
  pool_limit : option Z
}.

(** The local variables of [batch_convert] when it logs its results. *)
Record Report := {
  found : nat;
  successful : nat;
  failed : nat;
  total_time : Q;
  avg_time : option Q
}.

Section Driver.
Context {ENV : Env}.

(** The result tuple of [process_file]. *)
Definition Result : Type := str * bool * Q.

(** Lines 48-51: the output path of a document.  [with_suffix] is
    called on both branches, before the [try] of line 55. *)
Definition output_path_of (output_dir : option str) (pdf_path : str)
  : option str :=
  docx ← with_suffix_docx pdf_path;
  Some (match output_dir with
        | Some (c :: d) => path_join (c :: d) (path_name docx)
        | Some [] | None => docx
        end).


(** [process_file] (lines 43-68): the exception of [with_suffix]
    escapes it, an exception of the engine is caught. *)
Definition process_file (args : str * option str * str * Z) : Exc Result :=
  let '(pdf_path, output_dir, lang, dpi) := args in
  match output_path_of output_dir pdf_path with
  | None => Raise ValueError
  | Some output_path =>
      Return match convert_pdf_to_word pdf_path output_path lang dpi with
             | Returns success elapsed_time => (pdf_path, success, elapsed_time)
             | Raises => (pdf_path, false, 0%Q)
             end
  end.

(** [os.path.join(input_path, '**', '*.pdf')] *)
Definition tree_pattern (input_path : str) : str :=
  (if Py.endswith (u "/") input_path || bool_decide (input_path = [])
   then input_path else input_path ++ u "/") ++ u "**/*.pdf".

(** Lines 77-83. *)
Definition resolve (input_path : str) : list str :=
  if isdir input_path then glob (tree_pattern input_path)
  else if isfile input_path
          && Py.endswith (u ".pdf") (Py.str_lower input_path)
  then [input_path]
  else glob input_path.

(** Lines 99-100; [None] when [cpu_count] raises. *)
Definition workers (max_workers : option Z) : option Z :=
  match max_workers with
  | None => (λ n, Z.max 1 (n - 1)) <$> cpu_count
  | Some n => Some n
  end.

(** Whether [ProcessPoolExecutor(max_workers=n)] is constructed: [n]
    has to be positive, and within the limit of the platform. *)
Definition pool_accepts (n : Z) : bool :=
  (0 <? n)%Z && match pool_limit with
                | Some m => (n <=? m)%Z
                | None => true
                end.


(** The results of [executor.map] as the loop of line 111 receives
    them: in the order of the arguments, up to the first call that
    raised, whose exception is raised again in its place. *)
Fixpoint results_of {A B} (f : A → Exc B) (args : list A) : Exc (list B) :=
  match args with
  | [] => Return []
  | a :: args' =>
      r ← f a ;
      rs ← results_of f args' ;
      Return (r :: rs)
  end.

(** [ProcessPoolExecutor(max_workers=n)] followed by [executor.map]:
    the constructor raises [ValueError] when it rejects [n]. *)
Definition executor_map {A B} (n : Z) (f : A → Exc B) (args : list A)
  : Exc (list B) :=
  if pool_accepts n then results_of f args else Raise ValueError.

(** One turn of the loop of lines 111-116 on the three counters. *)
Definition count (acc : nat * nat * Q) (r : Result) : nat * nat * Q :=
  let '(successful, failed, total_time) := acc in
  let '(_, success, elapsed_time) := r in
  if success then (S successful, failed, (total_time + elapsed_time)%Q)
  else (successful, S failed, total_time).

Definition tally (results : list Result) : nat * nat * Q :=
  foldl count (0%nat, 0%nat, 0%Q) results.

(** [a / n] *)
Definition truediv (a : Q) (n : nat) : Exc Q :=
  match n with
  | O => Raise ZeroDivisionError
  | S _ => Return (a / inject_Z (Z.of_nat n))%Q
  end.

(** Whether [batch_convert] gets past lines 73-74: an output
    directory that is given can be created. *)
Definition dir_ready (output_dir : option str) : bool :=
  match output_dir with
  | Some (c :: d) => makedirs (c :: d)
  | Some [] | None => true
  end.

(** [batch_convert] up to its last statement: [None] when it returned at
    line 87, the counters otherwise. *)
Definition batch_report (input_path : str) (output_dir : option str)
    (lang : str) (dpi : Z) (max_workers : option Z)
  : Exc (option Report) :=
  if negb (dir_ready output_dir) then Raise OSError
  else
    let pdf_files := resolve input_path in
    match pdf_files with
    | [] => Return None
    | _ :: _ =>
        let process_args := (λ pdf, (pdf, output_dir, lang, dpi)) <$> pdf_files in
        match workers max_workers with
        | None => Raise NotImplementedError
        | Some n =>
            results ← executor_map n process_file process_args ;
            let '(successful, failed, total_time) := tally results in
            avg ← (if (0 <? successful)%nat
                   then (a ← truediv total_time successful ; Return (Some a))
                   else Return None) ;
            Return (Some {| found := length pdf_files; successful := successful;
                            failed := failed; total_time := total_time;
                            avg_time := avg |})
        end
    end.




End Driver.

(** The elapsed times the loop of lines 111-116 adds up: those of the
    results whose flag is set, in the order of the results. *)
Definition successful_times (results : list (str * bool * Q)) : list Q :=
  (λ r, r.2) <$> List.filter (λ r, r.1.2) results.

(** [total_time] after the loop: the times added one by one, from 0. *)
Definition sum_times (times : list Q) : Q := foldl Qplus 0%Q times.

End Batch.

(** ** The conversion engine ([pdf_to_word_ocr.py])

    The document is modelled by what is added to it: the calls of
    [python-docx] that add to its body, in order.  Rasterisation, OCR,
    the [pathlib] operations and the saving of the document are
    parameters. *)

Module Ocr.

Inductive Block :=
| PageBreak                           (** [doc.add_page_break()] *)
| Heading (text : str) (level : Z)    (** [doc.add_heading(text, level)] *)
| Paragraph (text : str).             (** [doc.add_paragraph(text)] *)

(** What a call of [convert_pdf_to_word] does: it saves a document and
    returns [True], it returns [False], or [with_suffix] raises. *)
Inductive Outcome :=
| Saved (output_path : str) (doc : list Block)
| ReturnsFalse
| RaisesValueError.

(** [None] is an exception: of [with_suffix] on a path with no name,
    of [convert_from_path], of [image_to_string].  [doc_save] tells
    whether creating the output directory and saving both succeed. *)
Class Engine := {
  Image : Type;
  path_exists : str → bool;
  path_is_file : str → bool;
  path_suffix : str → str;
  with_suffix_docx : str → option str;
  setup_tesseract : bool;
  convert_from_path : str → Z → option (list Image);
  image_to_string : Image → str → option str;
  doc_save : str → bool
}.

(** [str(n)] *)
Definition str_of_nat (n : nat) : str :=
  u (NilEmpty.string_of_uint (Nat.to_uint n)).

(** [para_text.replace('\n', ' ')] *)
Definition replace_newlines (text : str) : str :=
  (λ c, if (c =? 10)%N then 32%N else c) <$> text.

(** The paragraphs of one page (lines 164-167): the pieces between
    blank lines that are not all whitespace, each on one line. *)
Definition paragraphs (text : str) : list Block :=
  (λ para_text, Paragraph (replace_newlines para_text))
  <$> List.filter (λ para_text, bool_decide (Py.str_strip para_text ≠ []))
        (Py.split [10; 10]%N text).

(** One turn of the loop of lines 154-167. *)
Definition page (i : nat) (text : str) : list Block :=
  (if (0 <? i)%nat then [PageBreak] else [])
  ++ Heading (u "Page " ++ str_of_nat (i + 1)) 2 :: paragraphs text.

(** The body of the document when the loop ends. *)
Definition document (text_results : list str) : list Block :=
  mjoin (imap page text_results).

(** The headings of a document, and the number of its page breaks. *)
Definition headings (doc : list Block) : list (str * Z) :=
  omap (λ blk, match blk with
               | Heading text level => Some (text, level)
               | PageBreak | Paragraph _ => None
               end) doc.

Definition page_breaks (doc : list Block) : nat :=
  length (List.filter (λ blk, match blk with
                              | PageBreak => true
                              | Heading _ _ | Paragraph _ => false
                              end) doc).

Section Convert.
Context {ENG : Engine}.

(** [perform_ocr] (lines 128-142): a page whose recognition raises
    gives the empty text. *)
Definition perform_ocr (images : list Image) (lang : str) : list str :=
  (λ image, default [] (image_to_string image lang)) <$> images.

(** [create_word_document] (lines 144-182). *)
Definition create_word_document (text_results : list str) (output_path : str)
  : Outcome :=
  if doc_save output_path then Saved output_path (document text_results)
  else ReturnsFalse.

(** [convert_pdf_to_word] (lines 184-214). *)
Definition convert_pdf_to_word (pdf_path : str) (output_path : option str)
    (lang : str) (dpi : Z) : Outcome :=
  if negb (path_exists pdf_path) || negb (path_is_file pdf_path)
     || negb (bool_decide (Py.str_lower (path_suffix pdf_path) = u ".pdf"))
  then ReturnsFalse
  else
    match (match output_path with
           | None => with_suffix_docx pdf_path
           | Some out =>
               if bool_decide (Py.str_lower (path_suffix out) = u ".docx")
               then Some out else with_suffix_docx out
           end) with
    | None => RaisesValueError
    | Some out =>
        if negb setup_tesseract then ReturnsFalse
        else match convert_from_path pdf_path dpi with
             | None | Some [] => ReturnsFalse
             | Some (image :: images) =>
                 create_word_document (perform_ocr (image :: images) lang) out
             end
    end.

End Convert.

End Ocr.

(** ** Concrete inputs

    A runtime on ASCII text, a multipart encoder as a browser produces
    it, and an environment for the batch driver: what the examples
    below are evaluated on. *)

Module Fixtures.

(** Decimal literals as [int] reads them: digits, with single
    underscores between digits. *)
Fixpoint digits_value (acc : Z) (after_digit : bool) (s : str) : option Z :=
  match s with
  | [] => if after_digit then Some acc else None
  | c :: s' =>
      if ((48 <=? c) && (c <=? 57))%N
      then digits_value (acc * 10 + Z.of_N (c - 48)) true s'
      else if (c =? 95)%N && after_digit
      then match s' with
           | [] => None
           | _ :: _ => digits_value acc false s'
           end
      else None
  end.

(** [int(text)] on ASCII text: surrounding whitespace, an optional
    sign, a decimal literal. *)
Definition int_ascii (text : str) : option Z :=
  match Py.str_strip text with
  | 43%N :: r => digits_value 0 false r
  | 45%N :: r => Z.opp <$> digits_value 0 false r
  | r => digits_value 0 false r
  end.

(** [text.split()]: the runs of characters that are not whitespace. *)
Fixpoint words (cur : str) (s : str) : list str :=
  match s with
  | [] => match cur with [] => [] | _ :: _ => [reverse cur] end
  | c :: s' =>
      if Py.str_isspace c
      then match cur with
           | [] => words [] s'
           | _ :: _ => reverse cur :: words [] s'
           end
      else words (c :: cur) s'
  end.

Fixpoint join (sep : str) (l : list str) : str :=
  match l with
  | [] => []
  | [x] => x
  | x :: l' => x ++ sep ++ join sep l'
  end.

(** The characters Werkzeug keeps: letters, digits, [_], [.], [-]. *)
Definition filename_char (c : N) : bool :=
  ((65 <=? c) && (c <=? 90) || (97 <=? c) && (c <=? 122)
   || (48 <=? c) && (c <=? 57)
   || (c =? 95) || (c =? 46) || (c =? 45))%N.

(** [secure_filename] on ASCII text, on a POSIX host: path separators
    become spaces, runs of whitespace become [_], other characters are
    dropped, leading and trailing [.] and [_] are stripped. *)
Definition secure_filename_ascii (name : str) : str :=
  let spaced := (λ c, if (c =? 47)%N then 32%N else c) <$> name in
  let joined := join (u "_") (words [] spaced) in
  Py.strip (λ c, (c =? 46) || (c =? 95))%N
    (filter (λ c, filename_char c = true) joined).

Definition runtime : Web.Runtime :=
  {| Web.py_int := int_ascii; Web.secure_filename := secure_filename_ascii;
     Web.read_limit := 2147483648 |}.

(** The double-quote character. *)
Definition DQ : bytes := [x22].

(** One part of a multipart body: delimiter line, disposition with the
    given attributes, blank line, content, line terminator. *)
Definition attr (key value : string) : bytes :=
  b "; " ++ b key ++ b "=" ++ DQ ++ b value ++ DQ.

Definition mk_part (boundary : string) (attrs : list bytes) (content : bytes)
  : bytes :=
  b "--" ++ b boundary ++ CRLF
  ++ b "Content-Disposition: form-data" ++ mjoin attrs ++ CRLF
  ++ CRLF ++ content ++ CRLF.

Definition mk_body (boundary : string) (parts : list bytes) : bytes :=
  mjoin parts ++ b "--" ++ b boundary ++ b "--" ++ CRLF.

(** The decimal numeral of [n]. *)
Definition decimal (n : nat) : str :=
  u (NilEmpty.string_of_uint (Nat.to_uint n)).

Definition mk_request (boundary : string) (body : bytes) : Web.Request :=
  {| Web.content_type_header :=
       Some (u "multipart/form-data; boundary=" ++ u boundary);
     Web.content_length_header := Some (decimal (length body));
     Web.rfile := body |}.

(** Two file parts and a resolution. *)
Definition req_two_files : Web.Request :=
  mk_request "XyZ" (mk_body "XyZ"
    [mk_part "XyZ" [attr "name" "pdf_file"; attr "filename" "first.pdf"]
       (b "%PDF-1.4 first");
     mk_part "XyZ" [attr "name" "dpi"] (b "150");
     mk_part "XyZ" [attr "name" "pdf_file"; attr "filename" "second.pdf"]
       (b "%PDF-1.4 second")]).





(** A request that announces a negative length, and one that
    announces more than can be read at once. *)
Definition req_negative_length : Web.Request :=
  {| Web.content_type_header := Some (u "multipart/form-data; boundary=XyZ");
     Web.content_length_header := Some (u "-5");
     Web.rfile := b "--XyZ--" ++ CRLF |}.

Definition req_huge_length : Web.Request :=
  {| Web.content_type_header := Some (u "multipart/form-data; boundary=XyZ");
     Web.content_length_header := Some (u "99999999999999999999");
     Web.rfile := b "--XyZ--" ++ CRLF |}.

(** A file sent under another field name, and a language sent with a
    [filename]. *)
Definition req_other_field : Web.Request :=
  mk_request "XyZ" (mk_body "XyZ"
    [mk_part "XyZ" [attr "name" "document"; attr "filename" "report.pdf"]
       (b "%PDF-1.4 data");
     mk_part "XyZ" [attr "name" "ocr_lang"; attr "filename" "lang.txt"]
       (b "deu")]).

(** One file, no language, a resolution that is not a number. *)
Definition req_bad_dpi : Web.Request :=
  mk_request "XyZ" (mk_body "XyZ"
    [mk_part "XyZ" [attr "name" "pdf_file"; attr "filename" "report.pdf"]
       (b "%PDF-1.4 data");
     mk_part "XyZ" [attr "name" "dpi"] (b "high")]).

(** One file and nothing else. *)
Definition req_plain : Web.Request :=
  mk_request "XyZ" (mk_body "XyZ"
    [mk_part "XyZ" [attr "name" "pdf_file"; attr "filename" "report.pdf"]
       (b "%PDF-1.4 data")]).

(** The server once [req_plain] has been accepted with the identifier
    [7d1f]: its thread is started and has not run, its reply is not yet
    served. *)
Definition accepted : Web.Server :=
  Web.answering (Some (Web.ReplyTask (u "7d1f") Web.processing))
    (Web.handle_convert (RT:=runtime) req_plain (u "7d1f") Web.server0).2.

(** [Path(p).with_suffix('.docx')] on the paths used below: the text
    from the last dot of the last component on is replaced; a path
    whose last component is empty, or is [.], has an empty name. *)
Definition with_suffix_docx_ascii (p : str) : option str :=
  let name := Py.last_segment 47%N p in
  if bool_decide (name = []) || bool_decide (name = u ".") then None
  else if bool_decide (46%N ∈ name)
       then Some (Py.rsplit1_head 46%N p ++ u ".docx")
       else Some (p ++ u ".docx").

(** A directory [in] with three documents: the first converts in a
    second and a half, the engine raises on the second, and returns
    [False] on the third.  Four processing units, on a POSIX host. *)
Definition env : Batch.Env :=
  {| Batch.convert_pdf_to_word := λ pdf_path _ _ _,
       if bool_decide (pdf_path = u "in/a.pdf") then Batch.Returns true (3 # 2)
       else if bool_decide (pdf_path = u "in/b.pdf") then Batch.Raises
       else Batch.Returns false (1 # 10);
     Batch.isdir := λ p, bool_decide (p = u "in");
     Batch.isfile := λ p,
       bool_decide (p ∈ [u "in/a.pdf"; u "in/b.pdf"; u "in/c.pdf"]);
     Batch.glob := λ pattern,
       if bool_decide (pattern = u "in/**/*.pdf")
       then [u "in/a.pdf"; u "in/b.pdf"; u "in/c.pdf"]
       else [];
     Batch.makedirs := λ _, true;
     Batch.cpu_count := Some 4%Z;
     Batch.with_suffix_docx := with_suffix_docx_ascii;
     Batch.path_name := Py.last_segment 47%N;
     Batch.path_join := λ d n, d ++ u "/" ++ n;
     Batch.pool_limit := None |}.


(** A scheduler that runs the thread started first: its identifier,
    and the server after one step of it. *)
Definition head_id (s : Web.Server) : str :=
  match Web.threads s with
  | w :: _ => Web.file_id w
  | [] => []
  end.

Definition drive (o : Web.EngineOutcome) (s : Web.Server) : Web.Server :=
  match Web.threads s with
  | w :: ws =>
      match Web.worker_step o w (Web.store s) with
      | Some (w', st') =>
          {| Web.store := st'; Web.threads := w' :: ws;
             Web.responding := Web.responding s |}
      | None => s
      end
  | [] => s
  end.

(** The engine writing a document. *)
Definition writes_docx : Web.EngineOutcome := Web.Converted (b "PK docx").

(** [accepted] after three steps of its thread, the engine returning
    [False]. *)
Definition failed_early : Web.Server :=
  drive Web.NotConverted
    (drive Web.NotConverted (drive Web.NotConverted accepted)).

(** [accepted] after three steps of its thread. *)
Definition converted : Web.Server :=
  drive writes_docx (drive writes_docx (drive writes_docx accepted)).

(** The header block of a file part, and a content with blank lines, a
    piece of the delimiter, and whitespace and line terminators at its
    end. *)
Definition file_headers : bytes :=
  b "Content-Disposition: form-data" ++ attr "name" "pdf_file"
  ++ attr "filename" "scan.pdf" ++ CRLF ++ b "Content-Type: application/pdf".

Definition awkward_content : bytes :=
  b "%PDF" ++ CRLF ++ CRLF ++ b "--Xy " ++ CRLF ++ b " " ++ CRLF.

(** The segment of a resolution field. *)
Definition dpi_segment : bytes :=
  CRLF ++ b "Content-Disposition: form-data" ++ attr "name" "dpi"
  ++ CRLF ++ CRLF ++ b "150" ++ CRLF.


(** The thread of [accepted], at its start. *)
Definition spawned : Web.Worker :=
  default (Web.Build_Worker [] [] [] [] [] 0 Web.Spawned)
    (head (Web.threads accepted)).

(** The server once the reply of that submission has been served and
    [req_plain] has been accepted a second time, with the identifier
    [9a0c]; and the thread of that task. *)
Definition accepted_twice : Web.Server :=
  Web.answering (Some (Web.ReplyTask (u "9a0c") Web.processing))
    (Web.handle_convert (RT:=runtime) req_plain (u "9a0c")
       (Web.answering None accepted)).2.

Definition spawned_second : Web.Worker :=
  default (Web.Build_Worker [] [] [] [] [] 0 Web.Spawned)
    (last (Web.threads accepted_twice)).

(** A script directory with one stylesheet. *)
Definition site : Web.Site :=
  {| Web.site_isfile := λ p, bool_decide (p = u "static/style.css");
     Web.guess_type := λ p,
       if Py.endswith (u ".css") p then Some (u "text/css") else None;
     Web.site_read := λ p,
       if bool_decide (p = u "static/style.css") then Some (b "body {}")
       else None |}.

(** An engine on two scanned pages, named by their numbers: the first
    is recognised, recognition raises on the second. *)
Definition engine : Ocr.Engine :=
  {| Ocr.Image := nat;
     Ocr.path_exists := λ p, bool_decide (p = u "scan.PDF");
     Ocr.path_is_file := λ p, bool_decide (p = u "scan.PDF");
     Ocr.path_suffix := λ p, 46%N :: Py.last_segment 46%N p;
     Ocr.with_suffix_docx := λ p, Some (Py.rsplit1_head 46%N p ++ u ".docx");
     Ocr.setup_tesseract := true;
     Ocr.convert_from_path := λ _ _, Some [1%nat; 2%nat];
     Ocr.image_to_string := λ image _,
       if bool_decide (image = 1%nat)
       then Some (u "Dear Sir," ++ [10; 10; 32; 10; 10]%N
                  ++ u "thank you" ++ [10%N] ++ u "for the letter.")
       else None;
     Ocr.doc_save := λ _, true |}.

(** A download directory where two artifacts begin with the same
    identifier. *)
Definition listing : list (str * option bytes) :=
  [(u "03c2_notes.docx", Some (b "PK notes"));
   (u "7d1f_report.docx", Some (b "PK docx"));
   (u "7d1f_report_v2.docx", Some (b "PK later"))].

(** A host on which the ports below 8082 are in use. *)
Definition bind (p : Z) : Web.Bind :=
  if (p <? 8082)%Z then Web.InUse else Web.Bound.
End Fixtures.

(** * Properties *)

(** ** The Python primitives on examples *)

Example split_keeps_empty_segments :
  Py.split (b "--") (b "a--b----c--") = [b "a"; b "b"; b ""; b "c"; b ""].
Proof. reflexivity. Qed.

Example split_is_leftmost : Py.split (b "aa") (b "aaa") = [b ""; b "a"].
Proof. reflexivity. Qed.

Example split_once_first_occurrence :
  Py.split_once (u "=") (u "k=v=w") = Some (u "k", u "v=w") ∧
  Py.split_once (u "=") (u "kvw") = None.
Proof. split; reflexivity. Qed.

Example strip_both_ends :
  Py.str_strip (u "  a b  ") = u "a b" ∧
  Py.bytes_strip (b " " ++ CRLF ++ b "x" ++ CRLF) = b "x".
Proof. split; reflexivity. Qed.

Example rsplit_last_dot :
  Py.rsplit1_head 46%N (u "a.b.pdf") = u "a.b" ∧
  Py.rsplit1_head 46%N (u "abc") = u "abc".
Proof. split; reflexivity. Qed.

Example last_segment_of_path :
  Py.last_segment 47%N (u "/download/") = u "" ∧
  Py.last_segment 47%N (u "/download/7d1f_a.docx") = u "7d1f_a.docx".
Proof. split; reflexivity. Qed.

Example decode_utf8_strict :
  Py.decode_utf8 [xc3; xa9; x41] = Some [233%N; 65%N] ∧
  Py.decode_utf8 [xc0; x80] = None ∧
  Py.decode_utf8 [xed; xa0; x80] = None.
Proof. repeat split; reflexivity. Qed.

Example encode_then_decode :
  Py.encode_utf8 [233%N; 8364%N; 128512%N] ≫= Py.decode_utf8
  = Some [233%N; 8364%N; 128512%N].
Proof. reflexivity. Qed.

Example secure_filename_strips_path :
  Fixtures.secure_filename_ascii (u "../../etc/pass wd.PDF.")
  = u "etc_pass_wd.PDF".
Proof. reflexivity. Qed.

Example int_reads_decimal :
  Fixtures.int_ascii (u " -1_000 ") = Some (-1000)%Z ∧
  Fixtures.int_ascii (u "high") = None ∧
  Fixtures.int_ascii (u "") = None.
Proof. repeat split; reflexivity. Qed.

(** A body as a browser sends it, through the loop. *)
Example parse_two_files :
  Web.form_of (RT:=Fixtures.runtime)
    (u "multipart/form-data; boundary=XyZ")
    (Web.rfile Fixtures.req_two_files)
  = Some {| Web.pdf_file := Some (b "%PDF-1.4 second");
            Web.pdf_filename := Some (u "second.pdf");
            Web.ocr_lang := u "eng";
            Web.dpi := 150 |}.
Proof. vm_compute. reflexivity. Qed.

Arguments u : simpl never.
Arguments b : simpl never.

(** ** The multipart loop *)

Section Ingestion.
Import Web.
Context {RT : Runtime}.

Lemma handle_convert_segments req fid s parts :
  segments req = Some parts →
  handle_convert req fid s = submit (parse_form parts) fid s.
Proof.
  unfold segments, handle_convert, form_of.
  destruct (Py.startswith _ _); simpl; [|done].
  destruct (content_length req) as [n|]; simpl; [|done].
  destruct (rfile_read n (rfile req)) as [form_data|]; simpl; [|done].
  destruct (boundary_of _) as [bd|]; simpl; [|done].
  by intros [= <-].
Qed.

(** What an accepted submission did. *)
Lemma submit_accepted f fid s tid st s' :
  submit f fid s = (ReplyTask tid st, s') →
  ∃ data name,
    pdf_file f = Some data ∧ pdf_filename f = Some name ∧
    Py.endswith (u ".pdf") (Py.str_lower (secure_filename name)) = true ∧
    tid = fid ∧ st = processing ∧
    conversion_tasks (store s') = conversion_tasks (store s) ∧
    upload_dir (store s')
    = <[upload_name fid (secure_filename name) := data]> (upload_dir (store s)) ∧
    download_dir (store s') = download_dir (store s) ∧
    ∃ w, threads s' = threads s ++ [w] ∧ file_id w = fid ∧ pc w = Spawned ∧
         lang w = ocr_lang f ∧ resolution w = dpi f ∧
         pdf_path w = upload_name fid (secure_filename name).
Proof.
  unfold submit.
  destruct (pdf_file f) as [data|]; [|done].
  destruct (pdf_filename f) as [name|]; [|done].
  destruct (Py.endswith _ _) eqn:E; simpl; [|done].
  intros [= <- <- <-]. exists data, name. simpl.
  repeat split; try done. eexists. repeat split; done.
Qed.

(** Whatever is not a task reply left the server as it was. *)
Lemma handle_convert_error req fid s e s' :
  handle_convert req fid s = (ReplyError e, s') → s' = s.
Proof.
  unfold handle_convert, submit.
  repeat (case_match; simpl; try done); by intros [= <- <-].
Qed.

Lemma handle_convert_raised req fid s s' :
  handle_convert req fid s = (NoResponse, s') → s' = s.
Proof.
  unfold handle_convert, submit.
  repeat (case_match; simpl; try done); by intros [= <-].
Qed.

Lemma process_part_file f p name data :
  file_part p = Some (name, data) →
  process_part f p
  = {| pdf_file := Some data; pdf_filename := Some name;
       ocr_lang := ocr_lang f; dpi := dpi f |}.
Proof.
  unfold file_part, process_part, update_form.
  destruct (read_part p) as [| | |d c]; try done.
  destruct (d !! u "filename") as [fn|]; simpl; [|done].
  case_bool_decide; [|done]. by intros [= <- <-].
Qed.

Lemma process_part_no_file f p :
  file_part p = None →
  pdf_file (process_part f p) = pdf_file f ∧
  pdf_filename (process_part f p) = pdf_filename f.
Proof.
  unfold file_part, process_part, update_form.
  destruct (read_part p) as [| | |d c]; try done.
  destruct (d !! u "filename") as [fn|]; simpl.
  - by case_bool_decide.
  - intros _. repeat (case_match; simpl; try done).
Qed.

Lemma process_part_lang f p :
  field_part (u "ocr_lang") p = None →
  ocr_lang (process_part f p) = ocr_lang f.
Proof.
  unfold field_part, process_part, update_form.
  destruct (read_part p) as [| | |d c]; try done.
  destruct (d !! u "filename") as [fn|]; simpl.
  - intros _. by case_bool_decide.
  - destruct (d !! u "name") as [nm|]; [|done].
    case_bool_decide as E1; [done|]. intros _.
    case_bool_decide as E2; [congruence|].
    repeat (case_match; simpl; try done).
Qed.

Lemma process_part_dpi f p :
  field_part (u "dpi") p ≫= parse_dpi = None →
  dpi (process_part f p) = dpi f.
Proof.
  unfold field_part, process_part, update_form.
  destruct (read_part p) as [| | |d c]; try done.
  destruct (d !! u "filename") as [fn|]; simpl.
  - intros _. by case_bool_decide.
  - destruct (d !! u "name") as [nm|]; [|done].
    case_bool_decide as E1; simpl.
    + injection E1 as ->. intros ->.
      rewrite bool_decide_eq_false_2 by done.
      by rewrite bool_decide_eq_true_2.
    + intros _. case_bool_decide; [by case_match|].
      case_bool_decide; [congruence|done].
Qed.

Lemma loop_no_file parts : ∀ f,
  Forall (λ p, file_part p = None) parts →
  pdf_file (foldl process_part f parts) = pdf_file f ∧
  pdf_filename (foldl process_part f parts) = pdf_filename f.
Proof.
  induction parts as [|p parts IH]; intros f Hall; [done|].
  inversion_clear Hall as [|?? Hp Hrest]. simpl.
  destruct (IH (process_part f p) Hrest) as [-> ->].
  by apply process_part_no_file.
Qed.

Lemma loop_lang parts : ∀ f,
  Forall (λ p, field_part (u "ocr_lang") p = None) parts →
  ocr_lang (foldl process_part f parts) = ocr_lang f.
Proof.
  induction parts as [|p parts IH]; intros f Hall; [done|].
  inversion_clear Hall as [|?? Hp Hrest]. simpl.
  rewrite (IH _ Hrest). by apply process_part_lang.
Qed.

Lemma loop_dpi parts : ∀ f,
  Forall (λ p, field_part (u "dpi") p ≫= parse_dpi = None) parts →
  dpi (foldl process_part f parts) = dpi f.
Proof.
  induction parts as [|p parts IH]; intros f Hall; [done|].
  inversion_clear Hall as [|?? Hp Hrest]. simpl.
  rewrite (IH _ Hrest). by apply process_part_dpi.
Qed.

(** The loop keeps the file of the last file part. *)
Lemma loop_last_file before p after name data :
  file_part p = Some (name, data) →
  Forall (λ q, file_part q = None) after →
  pdf_file (parse_form (before ++ p :: after)) = Some data ∧
  pdf_filename (parse_form (before ++ p :: after)) = Some name.
Proof.
  intros Hp Hafter. unfold parse_form. rewrite foldl_app. simpl.
  destruct (loop_no_file after (process_part (foldl process_part form0 before) p)
              Hafter) as [-> ->].
  by rewrite (process_part_file _ _ _ _ Hp).
Qed.


Lemma rejected_upload_no_file_part req fid s parts :
  segments req = Some parts →
  Forall (λ p, file_part p = None) parts →
  handle_convert req fid s = (ReplyError NoPdfFileUploaded, s).
Proof.
  intros Hseg Hall. rewrite (handle_convert_segments _ _ _ _ Hseg).
  unfold submit, parse_form.
  by destruct (loop_no_file parts form0 Hall) as [-> _].
Qed.


(** C5. When several segments are file parts, the file kept is that of
    the last one in body order: its bytes and its name are the loop's
    result, and an accepted submission stores those bytes under the
    sanitised form of that name. *)
Theorem last_file_part_wins req fid s before p after name data :
  segments req = Some (before ++ p :: after) →
  file_part p = Some (name, data) →
  Forall (λ q, file_part q = None) after →
  pdf_file (parse_form (before ++ p :: after)) = Some data ∧
  pdf_filename (parse_form (before ++ p :: after)) = Some name ∧
  (Py.endswith (u ".pdf") (Py.str_lower (secure_filename name)) = true →
   ∃ s', handle_convert req fid s = (ReplyTask fid processing, s') ∧
         upload_dir (store s')
         = <[upload_name fid (secure_filename name) := data]>
             (upload_dir (store s))).
Proof.
  intros Hseg Hp Hafter.
  destruct (loop_last_file before p after name data Hp Hafter) as [Hd Hn].
  split; [done|]. split; [done|]. intros Hext.
  rewrite (handle_convert_segments _ _ _ _ Hseg).
  unfold submit. rewrite Hd, Hn, Hext. simpl. eauto.
Qed.

(** C7. In an accepted submission the thread is started with language
    [eng] when no segment is an [ocr_lang] field part, and with
    resolution 300 when no segment is a [dpi] field part, or when every
    [dpi] field part has a content that [int] rejects. *)
Theorem absent_fields_take_defaults req fid s parts tid st s' :
  segments req = Some parts →
  handle_convert req fid s = (ReplyTask tid st, s') →
  ∃ w, threads s' = threads s ++ [w] ∧
    (Forall (λ p, field_part (u "ocr_lang") p = None) parts →
     lang w = u "eng") ∧
    (Forall (λ p, field_part (u "dpi") p = None) parts →
     resolution w = 300%Z) ∧
    (Forall (λ p, field_part (u "dpi") p ≫= parse_dpi = None) parts →
     resolution w = 300%Z).
Proof.
  intros Hseg. rewrite (handle_convert_segments _ _ _ _ Hseg).
  intros Hacc. apply submit_accepted in Hacc
    as (data & name & _ & _ & _ & _ & _ & _ & _ & _ & w & Hw & _ & _ & Hl & Hr & _).
  exists w. split; [done|]. rewrite Hl, Hr. unfold parse_form.
  split; [|split].
  - intros Hall. by rewrite (loop_lang parts form0 Hall).
  - intros Hall. rewrite (loop_dpi parts form0); [done|].
    eapply Forall_impl; [exact Hall|]. by intros p ->.
  - intros Hall. by rewrite (loop_dpi parts form0 Hall).
Qed.

(** C9. A segment whose disposition has a [filename] but whose field
    name is not [pdf_file] changes none of the loop variables, whatever
    they are: it is neither the file nor a field.  A submission in which
    every segment with a [filename] is of that kind is answered with the
    no-file error, and the server is left as it was. *)
Theorem filename_under_other_field_is_ignored req fid s parts :
  segments req = Some parts →
  Forall (λ p, is_Some (part_attr (u "filename") p) →
               part_attr (u "name") p ≠ Some (u "pdf_file")) parts →
  Forall (λ p, is_Some (part_attr (u "filename") p) →
               ∀ f, process_part f p = f) parts ∧
  handle_convert req fid s = (ReplyError NoPdfFileUploaded, s).
Proof.
  intros Hseg Hall. split.
  - eapply Forall_impl; [exact Hall|]. intros p Hp Hfn f.
    specialize (Hp Hfn). revert Hfn Hp.
    unfold part_attr, process_part, update_form.
    destruct (read_part p) as [| | |d c]; try done.
    intros [fn ->] Hne. by rewrite bool_decide_eq_false_2.
  - apply (rejected_upload_no_file_part req fid s parts Hseg).
    eapply Forall_impl; [exact Hall|]. intros p.
    unfold part_attr, file_part.
    destruct (read_part p) as [| | |d c]; try done.
    destruct (d !! u "filename") as [fn|]; simpl; [|done].
    intros Hne. rewrite bool_decide_eq_false_2; [done|]. apply Hne. eauto.
Qed.

End Ingestion.

(** *** The ingestion theorems on concrete submissions *)

Ltac compute_eq := vm_compute; reflexivity.


Ltac by_decide := apply (bool_decide_unpack _); vm_compute; exact I.


(** A length below [-1], or above what can be read at once, makes the
    read of line 228 raise: nothing is served, and the server is left
    as it was. *)
Example unreadable_length_is_not_answered :
  Web.handle_convert (RT:=Fixtures.runtime) Fixtures.req_negative_length
    (u "7d1f") Web.server0
  = (Web.NoResponse, Web.server0) ∧
  Web.handle_convert (RT:=Fixtures.runtime) Fixtures.req_huge_length
    (u "7d1f") Web.server0
  = (Web.NoResponse, Web.server0).
Proof. split; compute_eq. Qed.

Lemma last_file_part_wins_witness :
  ∃ s', Web.handle_convert (RT:=Fixtures.runtime) Fixtures.req_two_files
          (u "7d1f") Web.server0
        = (Web.ReplyTask (u "7d1f") Web.processing, s') ∧
        Web.upload_dir (Web.store s') !! u "7d1f_second.pdf"
        = Some (b "%PDF-1.4 second").
Proof.
  pose (parts := default [] (Web.segments (RT:=Fixtures.runtime)
                               Fixtures.req_two_files)).
  destruct (last_file_part_wins (RT:=Fixtures.runtime) Fixtures.req_two_files
              (u "7d1f") Web.server0
              (take 3 parts) (default [] (parts !! 3%nat)) (drop 4 parts)
              (u "second.pdf") (b "%PDF-1.4 second"))
    as (_ & _ & Hacc); [compute_eq | compute_eq | by_decide |].
  destruct Hacc as (s' & Hs' & Hup); [compute_eq|].
  exists s'. split; [exact Hs'|].
  rewrite Hup. compute_eq.
Defined.

Lemma absent_fields_take_defaults_witness :
  ∃ w, Web.threads
         (Web.handle_convert (RT:=Fixtures.runtime) Fixtures.req_bad_dpi
            (u "7d1f") Web.server0).2
       = Web.threads Web.server0 ++ [w] ∧
       Web.lang w = u "eng" ∧ Web.resolution w = 300%Z.
Proof.
  destruct (absent_fields_take_defaults (RT:=Fixtures.runtime)
              Fixtures.req_bad_dpi (u "7d1f") Web.server0 _ _ _ _
              ltac:(compute_eq) ltac:(compute_eq))
    as (w & Hw & Hlang & _ & Hdpi).
  exists w. split; [exact Hw|].
  split; [apply Hlang | apply Hdpi]; by_decide.
Defined.

Lemma filename_under_other_field_is_ignored_witness :
  Web.handle_convert (RT:=Fixtures.runtime) Fixtures.req_other_field
    (u "7d1f") Web.server0
  = (Web.ReplyError Web.NoPdfFileUploaded, Web.server0).
Proof.
  refine (proj2 (filename_under_other_field_is_ignored (RT:=Fixtures.runtime)
                   Fixtures.req_other_field (u "7d1f") Web.server0 _
                   ltac:(compute_eq) _)).
  by_decide.
Defined.

(** ** The task registry under interleaving *)

Section Registry.
Import Web.
Context {RT : Runtime}.

Lemma file_id_at_pc w p : file_id (at_pc w p) = file_id w.
Proof. done. Qed.

(** A step of a thread keeps its identifier and writes the registry at
    that key only. *)
Lemma worker_step_spec o w st w' st' :
  worker_step o w st = Some (w', st') →
  file_id w' = file_id w ∧
  (∀ k, k ≠ file_id w →
        conversion_tasks st' !! k = conversion_tasks st !! k) ∧
  pending w' = pred (pending w) ∧
  (pending w = 0%nat → conversion_tasks st' = conversion_tasks st).
Proof.
  unfold worker_step, pending.
  destruct (pc w) as [| |[]| | |] eqn:Hpc;
    [|destruct o| | | | |]; intros [= <- <-]; simpl;
    (split; [done|]); (split; [|done || (split; [done|lia])]);
    intros k Hk; try done; by apply lookup_insert_ne.
Qed.

Lemma worker_step_inv o w st w' st' :
  worker_step o w st = Some (w', st') →
  thread_inv (conversion_tasks st) w →
  thread_inv (conversion_tasks st') w'.
Proof.
  unfold worker_step, thread_inv.
  destruct (pc w) as [| |[]| | |] eqn:Hpc;
    [|destruct o| | | | |]; intros [= <- <-]; simpl; try done;
    intros _; eexists; (split; [apply lookup_insert_eq|done]).
Qed.

Lemma worker_step_enabled o w st :
  pc w ≠ Done → is_Some (worker_step o w st).
Proof.
  unfold worker_step.
  destruct (pc w) as [| |[]| | |]; [|destruct o| | | | |]; by eauto.
Qed.

Lemma Forall_both {A} (P Q R : A → Prop) l :
  Forall P l → Forall Q l → (∀ x, P x → Q x → R x) → Forall R l.
Proof.
  intros HP HQ HR. induction HP as [|x l Hx _ IH]; [constructor|].
  inversion_clear HQ. constructor; auto.
Qed.

Lemma thread_inv_ext reg reg' w :
  reg' !! file_id w = reg !! file_id w →
  thread_inv reg w → thread_inv reg' w.
Proof. unfold thread_inv. by intros ->. Qed.

(** Among threads with distinct identifiers, the others have another
    identifier than the one singled out. *)
Lemma others_differ ws1 (w : Worker) ws2 :
  NoDup (file_id <$> (ws1 ++ w :: ws2)) →
  Forall (λ w2, file_id w2 ≠ file_id w) (ws1 ++ ws2).
Proof.
  rewrite fmap_app, fmap_cons.
  intros (H1 & H2 & H3)%NoDup_app. apply NoDup_cons in H3 as [H3 _].
  apply Forall_app. split; apply Forall_forall; intros w2 Hw2 Heq.
  - apply (H2 (file_id w2)); [by apply list_elem_of_fmap_2|].
    rewrite Heq. apply list_elem_of_here.
  - apply H3. rewrite <- Heq. by apply list_elem_of_fmap_2.
Qed.

Lemma handle_convert_accepted req fid s tid st s' :
  handle_convert req fid s = (ReplyTask tid st, s') →
  ∃ f, submit f fid s = (ReplyTask tid st, s').
Proof.
  unfold handle_convert.
  repeat (case_match; simpl; try done). eauto.
Qed.

(** What a submission does to the server: nothing, or one more thread
    at [Spawned] with the identifier drawn, and the registry as it was. *)
Lemma handle_convert_cases req fid s reply s' :
  handle_convert req fid s = (reply, s') →
  s' = s ∨
  reply = ReplyTask fid processing ∧
  conversion_tasks (store s') = conversion_tasks (store s) ∧
  ∃ w, threads s' = threads s ++ [w] ∧ file_id w = fid ∧ pc w = Spawned.
Proof.
  destruct reply as [e|tid st|]; intros Hc.
  - left. by eapply handle_convert_error.
  - right. apply handle_convert_accepted in Hc as [f Hf].
    apply submit_accepted in Hf
      as (? & ? & _ & _ & _ & -> & -> & Hreg & _ & _ & w & Hw & Hid & Hpc & _).
    eauto 10.
  - left. by eapply handle_convert_raised.
Qed.

(** The invariant does not look at the handler. *)
Lemma inv_answering r s : inv s → inv (answering r s).
Proof. by intros [Hnd Hth Hdom]. Qed.

Lemma inv_server0 : inv server0.
Proof.
  split; simpl.
  - apply NoDup_nil_2.
  - apply Forall_nil_2.
  - intros k [t Ht]. by rewrite lookup_empty in Ht.
Qed.

Lemma step_inv s l s' : inv s → step s l s' → inv s'.
Proof.
  intros [Hnd Hth Hdom] Hstep.
  destruct Hstep as [s req fid reply s' Hidle Hfresh Hc|s reply Hr
                    |st ws1 w ws2 r o w' st' Hw|s path Hidle];
    [apply inv_answering|by apply inv_answering|simpl in *|done].
  - apply handle_convert_cases in Hc
      as [->|(_ & Hreg & w & Hw & Hid & Hpc)]; [done|].
    assert (Hnew : fid ∉ issued s).
    { intros (w2 & Heq & Hin)%list_elem_of_fmap. by apply (Hfresh w2). }
    split.
    + unfold issued. rewrite Hw, fmap_app. apply NoDup_app.
      split; [done|]. split; [|apply NoDup_singleton].
      intros k Hk ->%list_elem_of_singleton. rewrite Hid in Hk. by apply Hnew.
    + rewrite Hw, Hreg. apply Forall_app. split; [done|].
      apply Forall_singleton. unfold thread_inv. rewrite Hpc, Hid.
      destruct (conversion_tasks (store s) !! fid) eqn:E; [|done].
      exfalso. apply Hnew, Hdom. eauto.
    + intros k Hk. rewrite Hreg in Hk. unfold issued. rewrite Hw, fmap_app.
      apply elem_of_app. left. by apply Hdom.
  - destruct (worker_step_spec _ _ _ _ _ Hw) as (Hid & Hother & _ & _).
    assert (Hiss : file_id <$> (ws1 ++ w' :: ws2) = file_id <$> (ws1 ++ w :: ws2)).
    { by rewrite !fmap_app, !fmap_cons, Hid. }
    pose proof (others_differ _ _ _ Hnd) as Hdiff.
    apply Forall_app in Hdiff as [Hd1 Hd2].
    apply Forall_app in Hth as [Ht1 Ht2]. apply Forall_cons in Ht2 as [Htw Ht2].
    split; simpl.
    + unfold issued. simpl. by rewrite Hiss.
    + apply Forall_app. split; [|apply Forall_cons; split].
      * eapply Forall_both; [exact Ht1|exact Hd1|].
        intros w2 Hi Hne. eapply thread_inv_ext; [|exact Hi]. by apply Hother.
      * by eapply worker_step_inv.
      * eapply Forall_both; [exact Ht2|exact Hd2|].
        intros w2 Hi Hne. eapply thread_inv_ext; [|exact Hi]. by apply Hother.
    + intros k Hk. unfold issued. simpl. rewrite Hiss.
      destruct (decide (k = file_id w)) as [->|Hne].
      * rewrite fmap_app, fmap_cons. apply elem_of_app. right.
        apply list_elem_of_here.
      * apply Hdom. simpl. by rewrite <- Hother.
Qed.

Lemma steps_inv s ls s' : inv s → steps s ls s' → inv s'.
Proof.
  intros Hinv Hsteps. induction Hsteps as [|s l s' ls s'' Hstep _ IH]; [done|].
  apply IH. by eapply step_inv.
Qed.

Lemma reachable_inv s : reachable s → inv s.
Proof. intros [ls Hls]. eapply steps_inv; [apply inv_server0|done]. Qed.

(** A step that changes the entry of [k] is a step of the thread of [k]. *)
Lemma step_writes_own_entry s l s' k :
  step s l s' →
  conversion_tasks (store s') !! k ≠ conversion_tasks (store s) !! k →
  ∃ o, l = Work k o.
Proof.
  intros Hstep Hch.
  destruct Hstep as [s req fid reply s' _ _ Hc|s reply _
                    |st ws1 w ws2 r o w' st' Hw|s path _];
    [|done|simpl in *|done].
  - apply handle_convert_cases in Hc as [->|(_ & Hreg & _)]; [done|].
    simpl in Hch. by rewrite Hreg in Hch.
  - destruct (worker_step_spec _ _ _ _ _ Hw) as (_ & Hother & _ & _).
    destruct (decide (k = file_id w)) as [->|Hne]; [eauto|].
    by rewrite Hother in Hch.
Qed.

(** Each identifier issued has one thread. *)
Lemma single_owner s k :
  inv s → k ∈ issued s →
  ∃ ws1 w ws2, threads s = ws1 ++ w :: ws2 ∧ file_id w = k ∧
               Forall (λ w2, file_id w2 ≠ k) (ws1 ++ ws2).
Proof.
  intros [Hnd _ _] (w & -> & Hin)%list_elem_of_fmap.
  apply list_elem_of_split in Hin as (ws1 & ws2 & Heq).
  exists ws1, w, ws2. split; [done|]. split; [done|].
  unfold issued in Hnd. rewrite Heq in Hnd. by apply others_differ.
Qed.

(** A thread that has not finished can take its next step, whatever
    the engine does. *)
Lemma work_enabled s w o :
  w ∈ threads s → pc w ≠ Done → ∃ s', step s (Work (file_id w) o) s'.
Proof.
  intros (ws1 & ws2 & Heq)%list_elem_of_split Hpc.
  destruct (worker_step_enabled o w (store s) Hpc) as [[w' st'] Hw].
  destruct s as [st ws r]. simpl in *. subst ws.
  eexists. by eapply step_work.
Qed.

(** Once written, a final state stays as it is. *)
Lemma step_terminal_stable s l s' k t :
  inv s → step s l s' →
  conversion_tasks (store s) !! k = Some t → terminal t →
  conversion_tasks (store s') !! k = Some t.
Proof.
  intros [Hnd Hth _] Hstep Hk Ht.
  destruct Hstep as [s req fid reply s' _ _ Hc|s reply _
                    |st ws1 w ws2 r o w' st' Hw|s path _];
    [|done|simpl in *|done].
  - apply handle_convert_cases in Hc as [->|(_ & Hreg & _)]; [done|].
    simpl. by rewrite Hreg.
  - destruct (worker_step_spec _ _ _ _ _ Hw) as (_ & Hother & _ & Hzero).
    destruct (decide (k = file_id w)) as [->|Hne]; [|by rewrite Hother].
    rewrite Hzero; [done|].
    apply Forall_app in Hth as [_ [Hw0 _]%Forall_cons].
    revert Hw0. unfold thread_inv, pending.
    destruct (pc w); try done; rewrite Hk.
    + done.
    + by intros (? & [= <-] & ?).
    + by intros (? & [= <-] & ?).
    + by intros (? & [= <-] & ?).
Qed.

Lemma steps_terminal_stable s ls s' k t :
  inv s → steps s ls s' →
  conversion_tasks (store s) !! k = Some t → terminal t →
  conversion_tasks (store s') !! k = Some t.
Proof.
  intros Hinv Hsteps Hk Ht.
  induction Hsteps as [|s l s' ls s'' Hstep _ IH]; [done|].
  apply IH; [by eapply step_inv|]. by eapply step_terminal_stable.
Qed.

Lemma step_within s l s' k n :
  inv s → step s l s' → within k s n →
  within k s' (n - (if is_work k l then 1 else 0)).
Proof.
  intros [Hnd _ _] Hstep (w & Hin & Hid & Hn).
  destruct Hstep as [s req fid reply s' _ _ Hc|s reply _
                    |st ws1 w0 ws2 r o w' st' Hw|s path _];
    simpl in *.
  - rewrite Nat.sub_0_r.
    apply handle_convert_cases in Hc as [->|(_ & _ & w1 & Hw1 & _)];
      [by exists w|].
    exists w. simpl. rewrite Hw1. split; [|done]. apply elem_of_app. by left.
  - rewrite Nat.sub_0_r. by exists w.
  - destruct (worker_step_spec _ _ _ _ _ Hw) as (Hid' & _ & Hpend & _).
    pose proof (others_differ _ _ _ Hnd) as Hdiff.
    apply elem_of_app in Hin as [Hin|[->|Hin]%elem_of_cons].
    + rewrite bool_decide_eq_false_2, Nat.sub_0_r.
      * exists w. split; [|done]. apply elem_of_app. by left.
      * rewrite <- Hid. apply Forall_app in Hdiff as [Hd _].
        intros Heq. by eapply (proj1 (Forall_forall _ _) Hd w).
    + rewrite bool_decide_eq_true_2 by done.
      exists w'. split; [|split; [congruence|lia]].
      apply elem_of_app. right. apply list_elem_of_here.
    + rewrite bool_decide_eq_false_2, Nat.sub_0_r.
      * exists w. split; [|done]. apply elem_of_app. right.
        by apply list_elem_of_further.
      * rewrite <- Hid. apply Forall_app in Hdiff as [_ Hd].
        intros Heq. by eapply (proj1 (Forall_forall _ _) Hd w).
  - rewrite Nat.sub_0_r. by exists w.
Qed.

Lemma steps_within s ls s' k n :
  inv s → steps s ls s' → within k s n →
  within k s' (n - work_count k ls).
Proof.
  intros Hinv Hsteps. revert n.
  induction Hsteps as [|s l s' ls s'' Hstep _ IH]; intros n Hn; simpl.
  - by rewrite Nat.sub_0_r.
  - rewrite Nat.sub_add_distr. apply IH; [by eapply step_inv|].
    by eapply step_within.
Qed.

Lemma within_zero s k :
  inv s → within k s 0 →
  ∃ t, conversion_tasks (store s) !! k = Some t ∧ terminal t.
Proof.
  intros [_ Hth _] (w & Hin & <- & Hn).
  pose proof (proj1 (Forall_forall _ _) Hth w Hin) as Hw.
  revert Hw Hn. unfold thread_inv, pending. destruct (pc w); simpl; (lia || done).
Qed.

Lemma within_issued s k :
  k ∈ issued s → within k s 3.
Proof.
  intros (w & -> & Hin)%list_elem_of_fmap. exists w.
  split; [done|]. split; [done|]. unfold pending. destruct (pc w); lia.
Qed.

(** C3. In a reachable state, for a task identifier [k] that was issued:
    only a step of the thread of [k] changes the registry entry of [k],
    and there is one such thread; that thread can take its next step
    until it has finished, whatever the engine does; in every run in
    which it takes three steps the entry ends in a final state
    ([completed] or [failed]); and an entry in a final state is the same
    after every further run, so it never goes back to [processing]. *)
Theorem task_reaches_final_state_and_keeps_it s k :
  reachable s → k ∈ issued s →
  (∀ l s', step s l s' →
           conversion_tasks (store s') !! k ≠ conversion_tasks (store s) !! k →
           ∃ o, l = Work k o) ∧
  (∃ ws1 w ws2, threads s = ws1 ++ w :: ws2 ∧ file_id w = k ∧
                Forall (λ w2, file_id w2 ≠ k) (ws1 ++ ws2)) ∧
  (∀ w o, w ∈ threads s → file_id w = k → pc w ≠ Done →
          ∃ s', step s (Work k o) s') ∧
  (∀ ls s', steps s ls s' → (3 ≤ work_count k ls)%nat →
            ∃ t, conversion_tasks (store s') !! k = Some t ∧
                 (status t = completed ∨ status t = failed)) ∧
  (∀ t ls s', conversion_tasks (store s) !! k = Some t →
              status t ≠ processing → steps s ls s' →
              conversion_tasks (store s') !! k = Some t).
Proof.
  intros Hreach%reachable_inv Hk. repeat split.
  - intros l s' Hstep. by apply step_writes_own_entry.
  - by apply single_owner.
  - intros w o Hin <- Hpc. by apply work_enabled.
  - intros ls s' Hsteps Hcount.
    pose proof (steps_within _ _ _ k 3 Hreach Hsteps (within_issued _ _ Hk)) as Hw.
    replace (3 - work_count k ls)%nat with 0%nat in Hw by lia.
    destruct (within_zero _ _ (steps_inv _ _ _ Hreach Hsteps) Hw) as (t & Ht & Hfin).
    exists t. split; [done|]. unfold terminal in Hfin. destruct (status t); auto.
    done.
  - intros t ls s' Ht Hfin Hsteps. by eapply steps_terminal_stable.
Qed.

(** A step that is not a step of the thread of [k] leaves the entry
    of [k] as it is. *)
Lemma step_keeps_entry s l s' k :
  step s l s' → is_work k l = false →
  conversion_tasks (store s') !! k = conversion_tasks (store s) !! k.
Proof.
  intros Hstep Hl.
  destruct Hstep as [s req fid reply s' _ _ Hc|s reply _
                    |st ws1 w ws2 r o w' st' Hw|s path _];
    [|done|simpl in *|done].
  - apply handle_convert_cases in Hc as [->|(_ & Hreg & _)]; [done|].
    simpl. by rewrite Hreg.
  - destruct (worker_step_spec _ _ _ _ _ Hw) as (_ & Hother & _ & _).
    apply Hother. intros ->. by rewrite bool_decide_eq_true_2 in Hl.
Qed.

(** The thread of [k] is one step further after each of its steps, and
    where it was after every other step. *)
Lemma step_pending s l s' k w :
  inv s → step s l s' → w ∈ threads s → file_id w = k →
  ∃ w', w' ∈ threads s' ∧ file_id w' = k ∧
        pending w' = (pending w - (if is_work k l then 1 else 0))%nat.
Proof.
  intros [Hnd _ _] Hstep Hin Hid.
  destruct Hstep as [s req fid reply s' _ _ Hc|s reply _
                    |st ws1 w0 ws2 r o w' st' Hw|s path _];
    simpl in *.
  - rewrite Nat.sub_0_r.
    apply handle_convert_cases in Hc as [->|(_ & _ & w1 & Hw1 & _)];
      [by exists w|].
    exists w. rewrite Hw1. split; [|done]. apply elem_of_app. by left.
  - rewrite Nat.sub_0_r. by exists w.
  - destruct (worker_step_spec _ _ _ _ _ Hw) as (Hid' & _ & Hpend & _).
    pose proof (others_differ _ _ _ Hnd) as Hdiff.
    apply elem_of_app in Hin as [Hin|[->|Hin]%elem_of_cons].
    + rewrite bool_decide_eq_false_2, Nat.sub_0_r.
      * exists w. split; [|done]. apply elem_of_app. by left.
      * rewrite <- Hid. apply Forall_app in Hdiff as [Hd _].
        intros Heq. by eapply (proj1 (Forall_forall _ _) Hd w).
    + rewrite bool_decide_eq_true_2 by done.
      exists w'. split; [|split; [congruence|lia]].
      apply elem_of_app. right. apply list_elem_of_here.
    + rewrite bool_decide_eq_false_2, Nat.sub_0_r.
      * exists w. split; [|done]. apply elem_of_app. right.
        by apply list_elem_of_further.
      * rewrite <- Hid. apply Forall_app in Hdiff as [_ Hd].
        intros Heq. by eapply (proj1 (Forall_forall _ _) Hd w).
  - rewrite Nat.sub_0_r. by exists w.
Qed.

Lemma steps_pending s ls s' k : ∀ w,
  inv s → steps s ls s' → w ∈ threads s → file_id w = k →
  ∃ w', w' ∈ threads s' ∧ file_id w' = k ∧
        pending w' = (pending w - work_count k ls)%nat.
Proof.
  intros w Hinv Hsteps. revert w.
  induction Hsteps as [|s l s' ls s'' Hstep _ IH]; intros w Hin Hid; simpl.
  - exists w. by rewrite Nat.sub_0_r.
  - destruct (step_pending _ _ _ _ _ Hinv Hstep Hin Hid) as (w1 & Hin1 & Hid1 & Hp1).
    destruct (IH (step_inv _ _ _ Hinv Hstep) w1 Hin1 Hid1) as (w2 & Hin2 & Hid2 & Hp2).
    exists w2. split; [done|]. split; [done|]. lia.
Qed.

(** While only threads take steps, the handler stays where it is. *)
Lemma steps_of_threads s ls s' :
  steps s ls s' → Forall (λ l, thread_step l = true) ls →
  responding s' = responding s.
Proof.
  induction 1 as [|s l s' ls s'' Hstep _ IH]; [done|].
  intros [Hl Hls]%Forall_cons. rewrite (IH Hls).
  by destruct Hstep.
Qed.

Lemma step_respond_inv s reply s' :
  step s (Respond reply) s' →
  responding s = Some reply ∧ s' = answering None s.
Proof. by inversion 1. Qed.

(** C1, as the code has it.  An accepted submission does not write the
    registry: it writes the upload and starts the thread of the task,
    whose first statement is the one that registers the task as
    [processing].  Its reply, served after the thread is started, names
    the identifier drawn and reports [processing]; the threads may take
    steps before it is served.  When it is served, the registry holds
    for the identifier what the thread of the task has written by then:
    nothing if the thread has not taken a step, an entry with status
    [processing] after its first and second step, an entry in a final
    state from its third step on. *)
Theorem submit_leaves_registration_to_worker s req fid tid st s' :
  reachable s →
  step s (Submit req fid (ReplyTask tid st)) s' →
  tid = fid ∧ st = processing ∧
  conversion_tasks (store s') = conversion_tasks (store s) ∧
  (∃ w, threads s' = threads s ++ [w] ∧ file_id w = fid ∧ pc w = Spawned ∧
        is_Some (upload_dir (store s') !! pdf_path w) ∧
        ∀ o, ∃ w' st',
          worker_step o w (store s') = Some (w', st') ∧
          conversion_tasks st' !! fid = Some task_processing ∧
          status task_processing = processing) ∧
  ∀ ls s1 reply s2,
    steps s' ls s1 → Forall (λ l, thread_step l = true) ls →
    step s1 (Respond reply) s2 →
    reply = ReplyTask fid processing ∧
    store s2 = store s1 ∧
    (work_count fid ls = 0%nat →
     conversion_tasks (store s2) !! fid = None) ∧
    ((1 ≤ work_count fid ls ≤ 2)%nat →
     ∃ t, conversion_tasks (store s2) !! fid = Some t ∧
          status t = processing) ∧
    ((3 ≤ work_count fid ls)%nat →
     ∃ t, conversion_tasks (store s2) !! fid = Some t ∧
          (status t = completed ∨ status t = failed)).
Proof.
  intros Hreach%reachable_inv Hstep.
  pose proof (step_inv _ _ _ Hreach Hstep) as Hinv'.
  inversion Hstep as [? ? ? ? s0 Hidle Hfresh Hc| | |]; subst.
  apply handle_convert_accepted in Hc as [f Hf].
  apply submit_accepted in Hf
    as (data & name & _ & _ & _ & Htid & Hst & Hreg & Hup & _
        & w & Hw & Hid & Hpc & _ & _ & Hpath).
  subst tid st.
  split; [done|]. split; [done|]. split; [done|]. split.
  { exists w. split; [done|]. split; [done|]. split; [done|]. split.
    { simpl. rewrite Hup, Hpath, lookup_insert_eq. eauto. }
    intros o. unfold worker_step. rewrite Hpc. do 2 eexists.
    split; [done|]. simpl. rewrite Hid. split; [apply lookup_insert_eq|done]. }
  intros ls s1 reply s2 Hsteps Hls Hrespond.
  pose proof (steps_of_threads _ _ _ Hsteps Hls) as Hr. simpl in Hr.
  apply step_respond_inv in Hrespond as [Hr1 ->]. rewrite Hr in Hr1.
  injection Hr1 as <-. split; [done|]. split; [done|]. simpl.
  assert (Hin : w ∈ threads (answering (Some (ReplyTask fid processing)) s0)).
  { simpl. rewrite Hw. apply elem_of_app. right. apply list_elem_of_here. }
  destruct (steps_pending _ _ _ fid w Hinv' Hsteps Hin Hid)
    as (w1 & Hin1 & Hid1 & Hp1).
  destruct (steps_inv _ _ _ Hinv' Hsteps) as [_ Hth1 _].
  pose proof (proj1 (Forall_forall _ _) Hth1 w1 Hin1) as Hentry.
  revert Hp1 Hentry. unfold thread_inv, pending, terminal.
  rewrite Hpc, Hid1.
  destruct (pc w1); intros Hp1 Hentry; repeat split; try lia; try done.
  all: intros _; destruct Hentry as (t & Ht & Hfin); exists t; split; [done|].
  all: destruct (status t); auto; done.
Qed.

End Registry.

(** *** The registry theorems on a concrete run *)

Lemma accepted_step :
  Web.step (RT:=Fixtures.runtime) Web.server0
    (Web.Submit Fixtures.req_plain (u "7d1f")
       (Web.ReplyTask (u "7d1f") Web.processing))
    Fixtures.accepted.
Proof.
  refine (Web.step_submit Web.server0 Fixtures.req_plain (u "7d1f")
            (Web.ReplyTask (u "7d1f") Web.processing) _ eq_refl _ _);
    [|compute_eq].
  intros w Hw. inversion Hw.
Qed.

Lemma drive_step {RT : Web.Runtime} o s :
  Fixtures.drive o s ≠ s →
  Web.step s (Web.Work (Fixtures.head_id s) o) (Fixtures.drive o s).
Proof.
  unfold Fixtures.drive, Fixtures.head_id.
  destruct s as [st [|w ws] r]; simpl; [done|].
  destruct (Web.worker_step o w st) as [[w' st']|] eqn:Hw; [|done].
  intros _. by apply (Web.step_work st [] w ws r o w' st').
Qed.

Lemma accepted_run :
  Web.steps (RT:=Fixtures.runtime) Fixtures.accepted
    [Web.Work (u "7d1f") Fixtures.writes_docx;
     Web.Work (u "7d1f") Fixtures.writes_docx;
     Web.Work (u "7d1f") Fixtures.writes_docx]
    Fixtures.converted.
Proof.
  eapply Web.steps_cons; [|eapply Web.steps_cons; [|eapply Web.steps_cons]].
  4: apply Web.steps_nil.
  - apply (drive_step (RT:=Fixtures.runtime) Fixtures.writes_docx Fixtures.accepted).
    vm_compute. discriminate.
  - apply (drive_step (RT:=Fixtures.runtime) Fixtures.writes_docx
             (Fixtures.drive Fixtures.writes_docx Fixtures.accepted)).
    vm_compute. discriminate.
  - apply (drive_step (RT:=Fixtures.runtime) Fixtures.writes_docx
             (Fixtures.drive Fixtures.writes_docx
                (Fixtures.drive Fixtures.writes_docx Fixtures.accepted))).
    vm_compute. discriminate.
Qed.

(** The claim of C1 fails on the code: the submission is accepted,
    the thread it started takes its three steps, the engine returning
    [False], before the reply is served; when the reply, which reports
    [processing], is served, the entry of the task is [failed]. *)
Lemma reply_served_after_the_task_failed :
  Web.step (RT:=Fixtures.runtime) Web.server0
    (Web.Submit Fixtures.req_plain (u "7d1f")
       (Web.ReplyTask (u "7d1f") Web.processing))
    Fixtures.accepted ∧
  Web.steps (RT:=Fixtures.runtime) Fixtures.accepted
    [Web.Work (u "7d1f") Web.NotConverted;
     Web.Work (u "7d1f") Web.NotConverted;
     Web.Work (u "7d1f") Web.NotConverted]
    Fixtures.failed_early ∧
  Web.step (RT:=Fixtures.runtime) Fixtures.failed_early
    (Web.Respond (Web.ReplyTask (u "7d1f") Web.processing))
    (Web.answering None Fixtures.failed_early) ∧
  Web.conversion_tasks (Web.store (Web.answering None Fixtures.failed_early))
    !! u "7d1f"
  = Some (Web.task_failed (u "Conversion failed")) ∧
  Web.status (Web.task_failed (u "Conversion failed")) ≠ Web.processing.
Proof.
  split; [exact accepted_step|]. split; [|split; [|split]].
  - eapply Web.steps_cons; [|eapply Web.steps_cons; [|eapply Web.steps_cons]].
    4: apply Web.steps_nil.
    + apply (drive_step (RT:=Fixtures.runtime) Web.NotConverted Fixtures.accepted).
      vm_compute. discriminate.
    + apply (drive_step (RT:=Fixtures.runtime) Web.NotConverted
               (Fixtures.drive Web.NotConverted Fixtures.accepted)).
      vm_compute. discriminate.
    + apply (drive_step (RT:=Fixtures.runtime) Web.NotConverted
               (Fixtures.drive Web.NotConverted
                  (Fixtures.drive Web.NotConverted Fixtures.accepted))).
      vm_compute. discriminate.
  - apply Web.step_respond. compute_eq.
  - compute_eq.
  - discriminate.
Qed.

Lemma submit_leaves_registration_to_worker_witness :
  ∃ t,
    Web.conversion_tasks (Web.store (Web.answering None Fixtures.converted))
      !! u "7d1f" = Some t ∧
    (Web.status t = Web.completed ∨ Web.status t = Web.failed).
Proof.
  destruct (submit_leaves_registration_to_worker (RT:=Fixtures.runtime)
              Web.server0 Fixtures.req_plain (u "7d1f") (u "7d1f")
              Web.processing Fixtures.accepted)
    as (_ & _ & _ & _ & Hserved).
  - exists []. constructor.
  - exact accepted_step.
  - destruct (Hserved _ Fixtures.converted
                (Web.ReplyTask (u "7d1f") Web.processing)
                (Web.answering None Fixtures.converted) accepted_run)
      as (_ & _ & _ & _ & Hfinal).
    + repeat constructor.
    + apply Web.step_respond. compute_eq.
    + apply Hfinal. vm_compute. lia.
Defined.

Lemma task_reaches_final_state_and_keeps_it_witness :
  Web.steps (RT:=Fixtures.runtime) Fixtures.accepted
    [Web.Work (u "7d1f") Fixtures.writes_docx;
     Web.Work (u "7d1f") Fixtures.writes_docx;
     Web.Work (u "7d1f") Fixtures.writes_docx]
    Fixtures.converted ∧
  (∃ t,
     Web.conversion_tasks (Web.store Fixtures.converted) !! u "7d1f" = Some t ∧
     (Web.status t = Web.completed ∨ Web.status t = Web.failed)) ∧
  (∀ t ls s',
     Web.conversion_tasks (Web.store Fixtures.converted) !! u "7d1f" = Some t →
     Web.status t ≠ Web.processing →
     Web.steps (RT:=Fixtures.runtime) Fixtures.converted ls s' →
     Web.conversion_tasks (Web.store s') !! u "7d1f" = Some t).
Proof.
  assert (Hacc : Web.reachable (RT:=Fixtures.runtime) Fixtures.accepted).
  { eexists. eapply Web.steps_cons; [exact accepted_step|constructor]. }
  assert (Hconv : Web.reachable (RT:=Fixtures.runtime) Fixtures.converted).
  { eexists. eapply Web.steps_cons; [exact accepted_step|exact accepted_run]. }
  split; [exact accepted_run|]. split.
  - destruct (task_reaches_final_state_and_keeps_it (RT:=Fixtures.runtime)
                Fixtures.accepted (u "7d1f") Hacc)
      as (_ & _ & _ & Hfin & _).
    { vm_compute. apply list_elem_of_here. }
    apply (Hfin _ _ accepted_run). vm_compute. lia.
  - destruct (task_reaches_final_state_and_keeps_it (RT:=Fixtures.runtime)
                Fixtures.converted (u "7d1f") Hconv)
      as (_ & _ & _ & _ & Hstable).
    { vm_compute. apply list_elem_of_here. }
    exact Hstable.
Defined.

(** ** Retrieval *)

Section Retrieval.
Import Web.

Lemma startswith_nil {A} `{EqDecision A} (s : list A) : Py.startswith [] s = true.
Proof. by destruct s. Qed.

Lemma handle_download_not_found listing file_id :
  handle_download listing file_id = NotFound404 ↔
  Forall (λ e, Py.startswith file_id e.1 = false) listing.
Proof.
  induction listing as [|[name content] rest IH]; simpl.
  - split; [constructor|done].
  - destruct (Py.startswith file_id name) eqn:E.
    + split; [by destruct content|].
      intros Hall. inversion_clear Hall as [|?? Hhd _]. simpl in Hhd. congruence.
    + rewrite IH. split; [by constructor|]. by inversion_clear 1.
Qed.

(** C8. [handle_download] answers 404 exactly when no listed name
    begins with the identifier.  The path [/download/] gives the empty
    identifier, which every name begins with: when the download
    directory is not empty the answer is never 404, it is decided by the
    entry listed first, and it is a stored artifact whenever the entries
    can be read. *)
Theorem download_not_found_iff_no_prefix_match st :
  (∀ file_id,
     handle_download (download_dir st) file_id = NotFound404 ↔
     Forall (λ e, Py.startswith file_id e.1 = false) (download_dir st)) ∧
  do_GET (u "/download/") st
  = DownloadReply (handle_download (download_dir st) []) ∧
  (download_dir st ≠ [] →
   do_GET (u "/download/") st ≠ DownloadReply NotFound404 ∧
   (Forall (λ e, is_Some e.2) (download_dir st) →
    ∃ name data rest,
      download_dir st = (name, Some data) :: rest ∧
      do_GET (u "/download/") st = DownloadReply (Served name data))).
Proof.
  split; [intros file_id; apply handle_download_not_found|].
  split; [done|].
  intros Hne. change (do_GET (u "/download/") st)
    with (DownloadReply (handle_download (download_dir st) [])).
  destruct (download_dir st) as [|[name content] rest]; [done|]. simpl.
  split; [by destruct content|].
  intros Hall. inversion_clear Hall as [|?? [data Hd] _]. simpl in Hd. subst.
  by exists name, data, rest.
Qed.

End Retrieval.

Lemma download_not_found_iff_no_prefix_match_witness :
  Web.do_GET (u "/download/")
    {| Web.conversion_tasks := ∅; Web.upload_dir := ∅;
       Web.download_dir := [(u "7d1f_report.docx", Some (b "PK docx"));
                            (u "a2c4_notes.docx", Some (b "PK other"))] |}
  = Web.DownloadReply (Web.Served (u "7d1f_report.docx") (b "PK docx")).
Proof.
  destruct (download_not_found_iff_no_prefix_match
              {| Web.conversion_tasks := ∅; Web.upload_dir := ∅;
                 Web.download_dir := [(u "7d1f_report.docx", Some (b "PK docx"));
                                      (u "a2c4_notes.docx", Some (b "PK other"))] |})
    as (_ & _ & Hne).
  destruct Hne as (_ & name & data & rest & Hdir & Hserved); [done| |].
  - repeat constructor; simpl; eauto.
  - simpl in Hdir. injection Hdir as <- <- _. exact Hserved.
Defined.

(** ** The batch driver *)

Section BatchRun.
Import Batch.
Context {ENV : Env}.





(** The results the loop receives: all of them when every call
    returns, the exception of a call otherwise. *)
Lemma results_of_Return {A B} (f : A → Exc B) args rs :
  results_of f args = Return rs ↔ Forall2 (λ a r, f a = Return r) args rs.
Proof.
  revert rs. induction args as [|a args IH]; intros rs; simpl.
  - split; [intros [= <-]; constructor|by inversion 1].
  - destruct (f a) as [r|e] eqn:Ha; cbn [mbind Exc_bind].
    + destruct (results_of f args) as [rs'|e]; cbn [mbind Exc_bind].
      * split.
        -- intros [= <-]. constructor; [done|]. by apply IH.
        -- inversion 1 as [|? r' ? rs'' Hr Hrest]; subst.
           apply IH in Hrest. congruence.
      * split; [done|]. inversion 1 as [|? r' ? rs'' Hr Hrest]; subst.
        by apply IH in Hrest.
    + split; [done|]. inversion 1; congruence.
Qed.

Lemma results_of_Raise {A B} (f : A → Exc B) args e :
  results_of f args = Raise e → Exists (λ a, f a = Raise e) args.
Proof.
  induction args as [|a args IH]; simpl; [done|].
  destruct (f a) as [r|e'] eqn:Ha; cbn [mbind Exc_bind].
  - destruct (results_of f args) as [rs'|e'']; cbn [mbind Exc_bind]; [done|].
    intros [= <-]. apply Exists_cons_tl. by apply IH.
  - intros [= <-]. by apply Exists_cons_hd.
Qed.


(** The three counters after the loop, from any start. *)
Lemma foldl_count results : ∀ s f t,
  foldl count (s, f, t) results
  = ((s + length (List.filter (λ r, r.1.2) results))%nat,
     (f + length (List.filter (λ r, negb r.1.2) results))%nat,
     foldl Qplus t (successful_times results)).
Proof.
  unfold successful_times.
  induction results as [|[[p success] e] results IH]; intros s f t; simpl.
  - by rewrite !Nat.add_0_r.
  - destruct success; simpl; rewrite IH; f_equal; f_equal; lia.
Qed.

Lemma tally_eq results :
  tally results
  = (length (List.filter (λ r, r.1.2) results),
     length (List.filter (λ r, negb r.1.2) results),
     sum_times (successful_times results)).
Proof. unfold tally, sum_times. by rewrite foldl_count. Qed.










End BatchRun.

(** *** The batch theorems on concrete directories *)







(** * Further properties of the code *)

(** ** Retrieval by prefix *)

Section Lookup.
Import Web.

Lemma startswith_refl {A} `{EqDecision A} (s : list A) : Py.startswith s s = true.
Proof. induction s as [|x s IH]; [done|]. simpl. by rewrite bool_decide_eq_true_2. Qed.

Lemma startswith_app {A} `{EqDecision A} (p s : list A) :
  Py.startswith p (p ++ s) = true.
Proof.
  induction p as [|x p IH]; [by destruct s|].
  simpl. by rewrite bool_decide_eq_true_2.
Qed.

Lemma handle_download_skips before rest file_id :
  Forall (λ e, Py.startswith file_id e.1 = false) before →
  handle_download (before ++ rest) file_id = handle_download rest file_id.
Proof.
  induction 1 as [|[n c] before Hn _ IH]; [done|].
  simpl in *. by rewrite Hn.
Qed.

(** X1. The answer of [handle_download] is decided by the first listed
    entry whose name begins with the identifier: its content is served
    if it can be read, the answer is 500 if it cannot; a later match is
    never looked at. *)
Theorem download_decided_by_first_match listing file_id :
  (∀ name data,
     handle_download listing file_id = Served name data ↔
     ∃ before after,
       listing = before ++ (name, Some data) :: after ∧
       Py.startswith file_id name = true ∧
       Forall (λ e, Py.startswith file_id e.1 = false) before) ∧
  (handle_download listing file_id = Error500 ↔
   ∃ before name after,
     listing = before ++ (name, None) :: after ∧
     Py.startswith file_id name = true ∧
     Forall (λ e, Py.startswith file_id e.1 = false) before).
Proof.
  split; [intros name data|]; (split;
    [|intros (before & ? & after & -> & Hm & Hb) ||
      intros (before & after & -> & Hm & Hb);
      rewrite (handle_download_skips _ _ _ Hb); simpl; by rewrite Hm]).
  - induction listing as [|[n c] rest IH]; [done|]. simpl.
    destruct (Py.startswith file_id n) eqn:E.
    + destruct c as [d|]; [|done]. intros [= -> ->].
      exists [], rest. by repeat split.
    + intros (before & after & -> & Hm & Hb)%IH.
      exists ((n, c) :: before), after. repeat split; [done|by constructor].
  - induction listing as [|[n c] rest IH]; [done|]. simpl.
    destruct (Py.startswith file_id n) eqn:E.
    + destruct c as [d|]; [done|]. intros _.
      exists [], n, rest. by repeat split.
    + intros (before & n' & after & -> & Hm & Hb)%IH.
      exists ((n, c) :: before), n', after. repeat split; [done|by constructor].
Qed.

End Lookup.

(** ** The registry and the stores in reachable states *)

Section Stores.
Import Web.
Context {RT : Runtime}.

Lemma dir_write_stored name data dir : stored name (dir_write name data dir).
Proof.
  exists data. induction dir as [|[n d] dir IH]; simpl.
  - apply list_elem_of_here.
  - case_bool_decide as E; [subst; apply list_elem_of_here|].
    by apply list_elem_of_further.
Qed.

Lemma dir_write_keeps name data dir other :
  stored other dir → stored other (dir_write name data dir).
Proof.
  intros [d Hd]. induction dir as [|[n c] dir IH]; [by apply elem_of_nil in Hd|].
  simpl. apply elem_of_cons in Hd as [[= <- <-]|Hd].
  - case_bool_decide as E.
    + subst. exists data. apply list_elem_of_here.
    + exists d. apply list_elem_of_here.
  - destruct (IH Hd) as [d' Hd']. case_bool_decide.
    + exists d. by apply list_elem_of_further.
    + exists d'. by apply list_elem_of_further.
Qed.

(** A step of a thread keeps what is listed in the download directory. *)
Lemma worker_step_keeps_stored o w st w' st' name :
  worker_step o w st = Some (w', st') →
  stored name (download_dir st) → stored name (download_dir st').
Proof.
  unfold worker_step.
  destruct (pc w) as [| |[]| | |]; [|destruct o| | | | |];
    intros [= <- <-]; simpl; try done.
  apply dir_write_keeps.
Qed.

Lemma thread_entry_ext st st' w :
  conversion_tasks st' !! file_id w = conversion_tasks st !! file_id w →
  (∀ name, stored name (download_dir st) → stored name (download_dir st')) →
  thread_entry st w → thread_entry st' w.
Proof.
  unfold thread_entry. intros -> Hdir [Hn Hw]. split; [done|].
  destruct (pc w) as [| |[]| | |]; try done.
  - destruct Hw. eauto.
  - destruct Hw as [[? ?]|?]; eauto.
  - destruct Hw as [[? ?]|?]; eauto.
Qed.

Lemma worker_step_entry o w st w' st' :
  worker_step o w st = Some (w', st') →
  thread_entry st w → thread_entry st' w'.
Proof.
  unfold worker_step, thread_entry.
  destruct (pc w) as [| |[]| | |] eqn:Hpc; [|destruct o| | | | |];
    intros [= <- <-]; simpl; intros [Hn Hw]; (split; [done|]); try done.
  - apply lookup_insert_eq.
  - split; [done|]. apply dir_write_stored.
  - left. destruct Hw as [_ Hst]. split; [apply lookup_insert_eq|done].
  - right. eexists. apply lookup_insert_eq.
  - right. eexists. apply lookup_insert_eq.
Qed.

(** In a reachable state every thread has the entry of its position. *)
Lemma reachable_entries s :
  reachable s → Forall (thread_entry (store s)) (threads s).
Proof.
  intros [ls Hsteps].
  assert (H0 : Forall (thread_entry (store server0)) (threads server0))
    by apply Forall_nil_2.
  pose proof inv_server0 as Hinv.
  revert H0 Hinv Hsteps. generalize server0 as s0. intros s0 H0 Hinv Hsteps.
  induction Hsteps as [|s l s' ls s'' Hstep _ IH]; [done|].
  apply IH; [|by eapply step_inv]. clear IH.
  destruct Hinv as [Hnd _ _].
  destruct Hstep as [s req fid reply s' _ _ Hc|s reply _
                    |st ws1 w ws2 r o w' st' Hw|s path _];
    [|done|simpl in *|done].
  - destruct reply as [e|tid stt|].
    { by rewrite (handle_convert_error _ _ _ _ _ Hc). }
    2: { by rewrite (handle_convert_raised _ _ _ _ Hc). }
    apply handle_convert_accepted in Hc as [f Hf]. revert Hf. unfold submit.
    destruct (pdf_file f); [|done]. destruct (pdf_filename f); [|done].
    destruct (negb _); [done|]. intros [= <- <- <-]. simpl.
    apply Forall_app. split.
    + eapply Forall_impl; [exact H0|]. intros w Hw.
      by eapply thread_entry_ext; [| |exact Hw].
    + apply Forall_singleton. split; [|done]. split; [done|]. simpl. eauto.
  - destruct (worker_step_spec _ _ _ _ _ Hw) as (_ & Hother & _ & _).
    pose proof (others_differ _ _ _ Hnd) as Hdiff.
    apply Forall_app in Hdiff as [Hd1 Hd2].
    apply Forall_app in H0 as [H1 H2]. apply Forall_cons in H2 as [Hw0 H2].
    apply Forall_app. split; [|apply Forall_cons; split].
    + eapply Forall_both; [exact H1|exact Hd1|]. intros w2 Hi Hne.
      eapply thread_entry_ext; [by apply Hother| |exact Hi].
      intros name. by eapply worker_step_keeps_stored.
    + by eapply worker_step_entry.
    + eapply Forall_both; [exact H2|exact Hd2|]. intros w2 Hi Hne.
      eapply thread_entry_ext; [by apply Hother| |exact Hi].
      intros name. by eapply worker_step_keeps_stored.
Qed.

(** The thread of an entry. *)
Lemma entry_owner s k t :
  reachable s → conversion_tasks (store s) !! k = Some t →
  ∃ w, w ∈ threads s ∧ file_id w = k ∧ thread_entry (store s) w ∧
       thread_inv (conversion_tasks (store s)) w.
Proof.
  intros Hreach Hk. pose proof (reachable_inv _ Hreach) as [_ Hth Hdom].
  destruct (proj1 (list_elem_of_fmap _ _ _) (Hdom k (mk_is_Some _ _ Hk)))
    as (w & -> & Hin).
  exists w. split; [done|]. split; [done|]. split.
  - exact (proj1 (Forall_forall _ _) (reachable_entries _ Hreach) w Hin).
  - exact (proj1 (Forall_forall _ _) Hth w Hin).
Qed.

(** What an entry is, by the thread that owns it. *)
Lemma entry_cases s k t :
  reachable s → conversion_tasks (store s) !! k = Some t →
  ∃ w, w ∈ threads s ∧ file_id w = k ∧ thread_names w ∧
       (t = task_processing ∨
        (t = task_completed w ∧ stored (output_path w) (download_dir (store s))) ∨
        ∃ msg, t = task_failed msg).
Proof.
  intros Hreach Hk.
  destruct (entry_owner _ _ _ Hreach Hk) as (w & Hin & <- & [Hn He] & Hi).
  exists w. split; [done|]. split; [done|]. split; [done|].
  revert He Hi. unfold thread_inv. rewrite Hk.
  destruct (pc w) as [| |[]| | |].
  - by intros _ [=].
  - intros [= ->] _. by left.
  - intros [[= ->] _] _. by left.
  - intros [= ->] _. by left.
  - intros [= ->] _. by left.
  - intros [[[= ->] ?]|[msg [= ->]]] _; [right; by left|right; right; eauto].
  - intros [[[= ->] ?]|[msg [= ->]]] _; [right; by left|right; right; eauto].
Qed.

Lemma endswith_app {A} `{EqDecision A} (s p : list A) :
  Py.endswith p (s ++ p) = true.
Proof. unfold Py.endswith. rewrite reverse_app. apply startswith_app. Qed.

(** X2. In a reachable state an entry of the registry has one of three
    shapes.  While [processing]: progress 0 and nothing else.  When
    [completed]: progress 100, no error, a filename ending in [.docx]
    and the locator [/download/<id>_<filename>].  When [failed]:
    progress 100, an error message, and no locator. *)
Theorem registry_entry_shapes s k t :
  reachable s →
  conversion_tasks (store s) !! k = Some t →
  match status t with
  | processing =>
      progress t = 0%Z ∧ download_url t = None ∧ filename t = None ∧
      error t = None
  | completed =>
      progress t = 100%Z ∧ error t = None ∧
      ∃ name, filename t = Some name ∧
              Py.endswith (u ".docx") name = true ∧
              download_url t = Some (u "/download/" ++ upload_name k name)
  | failed =>
      progress t = 100%Z ∧ is_Some (error t) ∧ download_url t = None ∧
      filename t = None
  end.
Proof.
  intros Hreach Hk.
  destruct (entry_cases _ _ _ Hreach Hk)
    as (w & _ & <- & (Hout & pdf & _ & Hdocx) & [->|[[-> _]|[msg ->]]]);
    simpl.
  - done.
  - split; [done|]. split; [done|]. exists (output_filename w).
    split; [done|]. split; [|by rewrite Hout].
    rewrite Hdocx. apply endswith_app.
  - repeat split; eauto.
Qed.

Lemma last_segment_after {A} `{EqDecision A} (c : A) (p s : list A) :
  c ∉ s → Py.last_segment c (p ++ c :: s) = s.
Proof.
  intros Hc. induction p as [|x p IH]; simpl.
  - rewrite bool_decide_eq_false_2 by done. by rewrite bool_decide_eq_true_2.
  - rewrite bool_decide_eq_true_2; [done|].
    apply elem_of_app. right. apply list_elem_of_here.
Qed.

Lemma do_GET_download name st :
  do_GET (u "/download/" ++ name) st
  = DownloadReply (handle_download (download_dir st)
                     (Py.last_segment 47%N (u "/download/" ++ name))).
Proof.
  unfold do_GET.
  rewrite !bool_decide_eq_false_2 by (vm_compute; discriminate).
  simpl orb. cbv iota. by rewrite startswith_app.
Qed.

(** X3. In a reachable state the artifact of a [completed] task is in
    the download directory under the name its locator gives, a name
    that begins with the task identifier: a download by the identifier
    is never answered 404, nor is a GET of the locator when the stored
    name has no [/]. *)
Theorem completed_task_is_downloadable s k t :
  reachable s →
  conversion_tasks (store s) !! k = Some t →
  status t = completed →
  ∃ name,
    download_url t = Some (u "/download/" ++ name) ∧
    Py.startswith k name = true ∧
    stored name (download_dir (store s)) ∧
    handle_download (download_dir (store s)) k ≠ NotFound404 ∧
    (47%N ∉ name →
     ∃ d, do_GET (u "/download/" ++ name) (store s) = DownloadReply d ∧
          d ≠ NotFound404).
Proof.
  intros Hreach Hk Hst.
  destruct (entry_cases _ _ _ Hreach Hk)
    as (w & _ & <- & (Hout & _) & [->|[[-> [data Hdata]]|[msg ->]]]);
    [done| |done].
  exists (output_path w). split; [done|]. split.
  { rewrite Hout. apply startswith_app. }
  split; [by exists data|].
  assert (Hfound : ∀ fid, Py.startswith fid (output_path w) = true →
                          handle_download (download_dir (store s)) fid ≠ NotFound404).
  { intros fid Hp Hnf. apply handle_download_not_found in Hnf.
    pose proof (proj1 (Forall_forall _ _) Hnf _ Hdata) as Hno. simpl in Hno.
    congruence. }
  split.
  { apply Hfound. rewrite Hout. apply startswith_app. }
  intros Hslash. eexists. split; [apply do_GET_download|].
  change (u "/download/") with (u "/download" ++ [47%N]).
  rewrite <- app_assoc. simpl app at 2.
  rewrite (last_segment_after 47%N _ _ Hslash).
  apply Hfound, startswith_refl.
Qed.

(** X4. No step removes an entry of the registry: an identifier that has
    an entry has one after every run. *)
Theorem registry_entries_are_never_removed s ls s' k :
  steps s ls s' →
  is_Some (conversion_tasks (store s) !! k) →
  is_Some (conversion_tasks (store s') !! k).
Proof.
  induction 1 as [|s l s' ls s'' Hstep _ IH]; [done|].
  intros Hk. apply IH. clear IH.
  destruct Hstep as [s req fid reply s' _ _ Hc|s reply _
                    |st ws1 w ws2 r o w' st' Hw|s path _];
    [|done|simpl in *|done].
  - apply handle_convert_cases in Hc as [->|(_ & Hreg & _)]; [done|].
    simpl. by rewrite Hreg.
  - revert Hw. unfold worker_step.
    destruct (pc w) as [| |[]| | |]; [|destruct o| | | | |];
      intros [= <- <-]; simpl; try done;
      apply lookup_insert_is_Some; destruct (decide (file_id w = k)); auto.
Qed.

(** X5. A thread run from its start, with enough steps, ends at [Done]
    with the entry of its task set by what the engine did: [completed]
    when it wrote the document, [failed] with the fixed message when it
    returned [False], [failed] with the message of the exception when
    it raised.  The upload is removed in the first two cases and left
    in place in the third. *)
Theorem thread_run_to_completion n o w st :
  pc w = Spawned → (4 ≤ n)%nat →
  run_thread n o w st
  = (at_pc w Done,
     {| conversion_tasks := <[file_id w := final_task o w]> (conversion_tasks st);
        upload_dir := match o with
                      | EngineRaised _ => upload_dir st
                      | Converted _ | NotConverted =>
                          delete (pdf_path w) (upload_dir st)
                      end;
        download_dir := match o with
                        | Converted artifact =>
                            dir_write (output_path w) artifact (download_dir st)
                        | NotConverted | EngineRaised _ => download_dir st
                        end |}).
Proof.
  intros Hpc Hn. do 4 (destruct n as [|n]; [lia|]). clear Hn.
  unfold run_thread at 1. unfold worker_step at 1. rewrite Hpc.
  fold run_thread.
  destruct o as [artifact| |msg]; simpl; try destruct n; simpl;
    unfold set_task, task_completed, at_pc; simpl;
    by rewrite insert_insert_eq.
Qed.

End Stores.

Lemma completed_task_is_downloadable_witness :
  ∃ name,
    Web.stored name (Web.download_dir (Web.store Fixtures.converted)) ∧
    Web.handle_download (Web.download_dir (Web.store Fixtures.converted))
      (u "7d1f") ≠ Web.NotFound404.
Proof.
  destruct (completed_task_is_downloadable (RT:=Fixtures.runtime)
              Fixtures.converted (u "7d1f")
              (Web.task_completed
                 (default (Web.Build_Worker [] [] [] [] [] 0 Web.Done)
                    (head (Web.threads Fixtures.converted)))))
    as (name & _ & _ & Hst & Hdl & _).
  - eexists. eapply Web.steps_cons; [exact accepted_step|exact accepted_run].
  - compute_eq.
  - reflexivity.
  - exists name. by split.
Defined.

Lemma registry_entry_shapes_witness :
  Web.progress
    (Web.task_completed
       (default (Web.Build_Worker [] [] [] [] [] 0 Web.Done)
          (head (Web.threads Fixtures.converted)))) = 100%Z.
Proof.
  pose proof (registry_entry_shapes (RT:=Fixtures.runtime)
                Fixtures.converted (u "7d1f")
                (Web.task_completed
                   (default (Web.Build_Worker [] [] [] [] [] 0 Web.Done)
                      (head (Web.threads Fixtures.converted))))) as Hshape.
  simpl Web.status in Hshape. cbv iota in Hshape.
  refine (proj1 (Hshape _ _)).
  - eexists. eapply Web.steps_cons; [exact accepted_step|exact accepted_run].
  - compute_eq.
Defined.

(** ** Framing: what the parser gives back *)

Section Framing.
Import Web.
Context {RT : Runtime}.

Lemma startswith_longer {A} `{EqDecision A} (p s t : list A) :
  (length p ≤ length s)%nat → Py.startswith p (s ++ t) = Py.startswith p s.
Proof.
  revert s. induction p as [|x p IH]; intros [|y s] Hlen; simpl in *;
    try done; try lia.
  rewrite IH; [done|lia].
Qed.

Lemma split_go_skip {A} `{EqDecision A} (sep x rest : list A) :
  Py.split_go sep (length x) [] (x ++ rest) = Py.split_go sep 0 [] rest.
Proof.
  induction x as [|c x IH]; simpl; [|done].
  destruct rest; [done|]. done.
Qed.

Lemma split_once_go_eq {A} `{EqDecision A} (sep cur s : list A) :
  Py.split_once_go sep cur s
  = if Py.startswith sep s then Some (reverse cur, drop (length sep) s)
    else match s with
         | [] => None
         | c :: s' => Py.split_once_go sep (c :: cur) s'
         end.
Proof. by destruct s. Qed.

Lemma find_go_eq {A} `{EqDecision A} (sep : list A) i s :
  Py.find_go sep i s
  = if Py.startswith sep s then Some i
    else match s with
         | [] => None
         | _ :: s' => Py.find_go sep (S i) s'
         end.
Proof. by destruct s. Qed.

Lemma split_go_cons {A} `{EqDecision A} (sep cur : list A) c s :
  Py.split_go sep 0 cur (c :: s)
  = if Py.startswith sep (c :: s)
    then reverse cur :: Py.split_go sep (length sep - 1) [] s
    else Py.split_go sep 0 (c :: cur) s.
Proof. done. Qed.

(** Where the separator first occurs at the end of [a ++ sep], the
    functions that look for it find it there, whatever follows. *)
Lemma first_occurrence {A} `{EqDecision A} (sep a rest : list A) :
  sep ≠ [] → ∀ i cur,
  Py.find_go sep i (a ++ sep) = Some (i + length a)%nat →
  Py.split_once_go sep cur (a ++ sep ++ rest) = Some (reverse cur ++ a, rest) ∧
  Py.split_go sep 0 cur (a ++ sep ++ rest)
  = (reverse cur ++ a) :: Py.split_go sep 0 [] rest.
Proof.
  intros Hsep. induction a as [|x a IH]; intros i cur Hfind.
  - rewrite !app_nil_r. simpl app. split.
    + rewrite split_once_go_eq, startswith_app.
      by rewrite drop_app_length.
    + destruct sep as [|c sep]; [done|].
      pose proof (startswith_app (c :: sep) rest) as Hs.
      simpl app in *. rewrite split_go_cons, Hs.
      replace (length (c :: sep) - 1)%nat with (length sep) by (simpl; lia).
      by rewrite split_go_skip.
  - assert (Hno : Py.startswith sep ((x :: a) ++ sep) = false).
    { rewrite find_go_eq in Hfind.
      destruct (Py.startswith sep ((x :: a) ++ sep)); [|done].
      injection Hfind. simpl. lia. }
    assert (Hno' : Py.startswith sep ((x :: a) ++ sep ++ rest) = false).
    { rewrite app_assoc, startswith_longer; [done|].
      rewrite length_app. lia. }
    rewrite find_go_eq, Hno in Hfind. simpl in Hfind.
    destruct (IH (S i) (x :: cur)) as [H1 H2].
    { rewrite Hfind. f_equal. simpl. lia. }
    rewrite reverse_cons, <- app_assoc in H1, H2. simpl in H1, H2.
    split.
    + rewrite split_once_go_eq, Hno'. exact H1.
    + simpl app in *. rewrite split_go_cons, Hno'. exact H2.
Qed.

Lemma find_none_split {A} `{EqDecision A} (sep : list A) : ∀ s i cur,
  Py.find_go sep i s = None →
  Py.split_go sep 0 cur s = [reverse cur ++ s].
Proof.
  induction s as [|c s IH]; intros i cur Hfind.
  - by rewrite app_nil_r.
  - rewrite find_go_eq in Hfind.
    destruct (Py.startswith sep (c :: s)) eqn:E; [done|].
    rewrite split_go_cons, E, (IH (S i) (c :: cur) Hfind).
    by rewrite reverse_cons, <- app_assoc.
Qed.

Lemma split_framed {A} `{EqDecision A} (sep tail : list A) (parts : list (list A)) :
  sep ≠ [] →
  Forall (λ p, Py.find sep (p ++ sep) = Some (length p)) parts →
  Py.find sep tail = None →
  Py.split_go sep 0 [] (Py.framed sep parts tail) = parts ++ [tail].
Proof.
  intros Hsep Hparts Htail.
  induction Hparts as [|p parts Hp _ IH]; simpl.
  - apply (find_none_split sep tail 0%nat [] Htail).
  - destruct (first_occurrence sep p (Py.framed sep parts tail) Hsep 0%nat [])
      as [_ Hnext]; [exact Hp|].
    simpl in Hnext. by rewrite Hnext, IH.
Qed.

(** X6. Splitting inverts the framing of a multipart body.  When the
    delimiter first occurs in each part followed by the delimiter at
    the end of the part, and does not occur in what follows the last
    delimiter, the segments of the body are the empty preamble, the
    parts in order, and what follows. *)
Theorem segments_of_framed_body boundary parts tail :
  let sep := b "--" ++ boundary in
  Forall (λ p, Py.find sep (p ++ sep) = Some (length p)) parts →
  Py.find sep tail = None →
  Py.split sep (sep ++ Py.framed sep parts tail) = [] :: parts ++ [tail].
Proof.
  intros sep Hparts Htail. unfold Py.split.
  assert (Hsep : sep ≠ []) by done. clearbody sep.
  destruct (first_occurrence sep [] (Py.framed sep parts tail) Hsep 0%nat [])
    as [_ Hfirst].
  { change ([] ++ sep) with sep. by rewrite find_go_eq, startswith_refl. }
  change ([] ++ sep ++ Py.framed sep parts tail)
    with (sep ++ Py.framed sep parts tail) in Hfirst.
  rewrite Hfirst. f_equal. by apply split_framed.
Qed.

End Framing.

Lemma segments_of_framed_body_witness :
  Py.split (b "--XyZ")
    (b "--XyZ"
     ++ Py.framed (b "--XyZ")
          [CRLF ++ b "one" ++ CRLF; CRLF ++ b "two--Xy" ++ CRLF]
          (b "--" ++ CRLF))
  = [b ""; CRLF ++ b "one" ++ CRLF; CRLF ++ b "two--Xy" ++ CRLF;
     b "--" ++ CRLF].
Proof.
  apply (segments_of_framed_body (b "XyZ")
           [CRLF ++ b "one" ++ CRLF; CRLF ++ b "two--Xy" ++ CRLF]
           (b "--" ++ CRLF)); [|compute_eq].
  repeat (constructor; [compute_eq|]). constructor.
Defined.

Section Recovery.
Import Web.
Context {RT : Runtime}.

Lemma lstrip_mid {A} (ws : A → bool) (x : list A) c y :
  ws c = false → Py.lstrip ws (x ++ c :: y) = Py.lstrip ws x ++ c :: y.
Proof.
  intros Hc. induction x as [|a x IH]; simpl; [by rewrite Hc|].
  by destruct (ws a).
Qed.

(** Stripping stops at a character that is not in the stripped set. *)
Lemma strip_mid {A} (ws : A → bool) (x : list A) c y :
  ws c = false →
  Py.strip ws (x ++ c :: y)
  = Py.lstrip ws x ++ c :: reverse (Py.lstrip ws (reverse y)).
Proof.
  intros Hc. unfold Py.strip. rewrite (lstrip_mid _ _ _ _ Hc).
  rewrite reverse_app, reverse_cons, <- app_assoc. simpl.
  rewrite (lstrip_mid _ _ _ _ Hc).
  by rewrite reverse_app, reverse_cons, reverse_involutive, <- app_assoc.
Qed.

Lemma strip_keeps {A} (ws : A → bool) (s : list A) c :
  c ∈ s → ws c = false → c ∈ Py.strip ws s.
Proof.
  intros (x & y & ->)%list_elem_of_split Hc. rewrite (strip_mid _ _ _ _ Hc).
  apply elem_of_app. right. apply list_elem_of_here.
Qed.

Lemma lstrip_subset {A} (ws : A → bool) (s : list A) c :
  c ∈ Py.lstrip ws s → c ∈ s.
Proof.
  induction s as [|a s IH]; simpl; [done|].
  destruct (ws a); [|done]. intros Hc. by apply list_elem_of_further, IH.
Qed.

Lemma strip_subset {A} (ws : A → bool) (s : list A) c :
  c ∈ Py.strip ws s → c ∈ s.
Proof.
  unfold Py.strip. rewrite elem_of_reverse. intros Hc.
  apply lstrip_subset in Hc. rewrite elem_of_reverse in Hc.
  by apply lstrip_subset in Hc.
Qed.

(** The elements of a segment come from the text that was split. *)
Lemma split_go_elements {A} `{EqDecision A} (sep : list A) c : ∀ s skip cur seg,
  seg ∈ Py.split_go sep skip cur s → c ∈ seg → c ∈ cur ∨ c ∈ s.
Proof.
  induction s as [|x s IH]; intros skip cur seg Hseg Hc.
  - apply list_elem_of_singleton in Hseg as ->. left.
    by rewrite elem_of_reverse in Hc.
  - simpl in Hseg. destruct skip as [|k].
    + destruct (Py.startswith sep (x :: s)).
      * apply elem_of_cons in Hseg as [->|Hseg].
        { left. by rewrite elem_of_reverse in Hc. }
        destruct (IH _ _ _ Hseg Hc) as [[]%elem_of_nil|Hs].
        right. by apply list_elem_of_further.
      * destruct (IH _ _ _ Hseg Hc) as [[->|Hcur]%elem_of_cons|Hs].
        { right. apply list_elem_of_here. }
        { by left. }
        { right. by apply list_elem_of_further. }
    + destruct (IH _ _ _ Hseg Hc) as [Hcur|Hs]; [by left|].
      right. by apply list_elem_of_further.
Qed.

Lemma contains_single {A} `{EqDecision A} (c : A) (s : list A) :
  Py.contains [c] s = true → c ∈ s.
Proof.
  induction s as [|x s IH]; simpl; [done|].
  case_bool_decide as E; simpl.
  - subst. intros _. apply list_elem_of_here.
  - intros Hs. by apply list_elem_of_further, IH.
Qed.

Lemma headers_from_colon lines k v : ∀ m,
  foldl add_header m lines !! k = Some v →
  m !! k = Some v ∨ ∃ line, line ∈ lines ∧ Py.contains (b ":") line = true.
Proof.
  induction lines as [|line lines IH]; intros m Hk; [by left|].
  simpl in Hk. destruct (IH _ Hk) as [Hm|(l & Hl & Hc)].
  - unfold add_header in Hm. destruct (Py.contains (b ":") line) eqn:E.
    + right. exists line. split; [apply list_elem_of_here|done].
    + by left.
  - right. exists l. split; [by apply list_elem_of_further|done].
Qed.

(** A header block with a header has a colon. *)
Lemma headers_have_colon raw k v :
  part_headers raw !! k = Some v → ":"%byte ∈ raw.
Proof.
  unfold part_headers. intros [Hm|(line & Hl & Hc)]%headers_from_colon.
  - by rewrite lookup_empty in Hm.
  - apply contains_single in Hc.
    destruct (split_go_elements _ _ _ _ _ _ Hl Hc) as [[]%elem_of_nil|]; done.
Qed.

(** The file of a segment with a well-formed header block. *)
Lemma file_part_of_segment hdr content value disposition name :
  Py.find (CRLF ++ CRLF) ((CRLF ++ hdr) ++ CRLF ++ CRLF)
  = Some (length (CRLF ++ hdr)) →
  part_headers (Py.bytes_strip (CRLF ++ hdr)) !! b "content-disposition"
  = Some value →
  Py.decode_utf8 value = Some disposition →
  disposition_dict disposition !! u "filename" = Some name →
  disposition_dict disposition !! u "name" = Some (u "pdf_file") →
  file_part ((CRLF ++ hdr) ++ (CRLF ++ CRLF) ++ content ++ CRLF)
  = Some (name, content).
Proof.
  intros Hblank Hhdr Hdec Hfn Hname.
  assert (Hcolon : ":"%byte ∈ (CRLF ++ hdr) ++ (CRLF ++ CRLF) ++ content ++ CRLF).
  { apply elem_of_app. left.
    by apply headers_have_colon, strip_subset in Hhdr. }
  assert (Hkept : ":"%byte ∈ Py.bytes_strip
                    ((CRLF ++ hdr) ++ (CRLF ++ CRLF) ++ content ++ CRLF)).
  { by apply strip_keeps. }
  unfold file_part, read_part.
  rewrite !bool_decide_eq_false_2.
  - destruct (first_occurrence (CRLF ++ CRLF) (CRLF ++ hdr) (content ++ CRLF)
                ltac:(done) 0%nat []) as [Honce _]; [exact Hblank|].
    change (reverse [] ++ (CRLF ++ hdr)) with (CRLF ++ hdr) in Honce.
    unfold Py.split_once. rewrite Honce.
    cbv zeta. rewrite Hhdr, Hdec. simpl. rewrite Hfn. simpl.
    rewrite bool_decide_eq_true_2 by done.
    unfold file_content. rewrite endswith_app.
    rewrite length_app. simpl length.
    replace (length content + 2 - 2)%nat with (length content) by lia.
    by rewrite take_app_length.
  - intros Heq. rewrite Heq in Hkept. vm_compute in Hkept.
    by repeat (apply elem_of_cons in Hkept as [?|Hkept]; [done|]);
       apply elem_of_nil in Hkept.
  - intros Heq. rewrite Heq in Hkept. by apply elem_of_nil in Hkept.
Qed.

(** X7. A file part is recovered byte for byte.  For a segment made of
    a header block, a blank line, the content and the line terminator
    of the framing: when the blank line is the first of the segment and
    the [Content-Disposition] header gives the field name [pdf_file]
    and a filename, the segment is a file part with that filename and
    exactly the content, whatever bytes the content holds (blank lines,
    trailing whitespace or line terminators included). *)
Theorem file_part_recovered hdr content value disposition name :
  Py.find (CRLF ++ CRLF) ((CRLF ++ hdr) ++ CRLF ++ CRLF)
  = Some (length (CRLF ++ hdr)) →
  part_headers (Py.bytes_strip (CRLF ++ hdr)) !! b "content-disposition"
  = Some value →
  Py.decode_utf8 value = Some disposition →
  disposition_dict disposition !! u "filename" = Some name →
  disposition_dict disposition !! u "name" = Some (u "pdf_file") →
  file_part ((CRLF ++ hdr) ++ (CRLF ++ CRLF) ++ content ++ CRLF)
  = Some (name, content).
Proof. apply file_part_of_segment. Qed.

Lemma find_closing boundary :
  Py.startswith boundary CRLF = false →
  Py.find (b "--" ++ boundary) (b "--" ++ CRLF) = None.
Proof.
  intros Hb. unfold Py.find. change (b "--") with ["-"%byte; "-"%byte].
  unfold CRLF in *. simpl. by rewrite Hb.
Qed.

(** X8. An upload is recovered byte for byte from a well-framed body.
    For a body whose parts are each followed by the delimiter, with the
    closing [--] after the last one: when the delimiter first occurs in
    each part followed by the delimiter at the end of the part, and the
    last file part is a segment as in X7, the form holds exactly the
    content of that part and its filename, whatever the other parts
    are and wherever they stand. *)
Theorem upload_recovered content_type boundary before after
    hdr content value disposition name :
  let sep := b "--" ++ boundary in
  let part := (CRLF ++ hdr) ++ (CRLF ++ CRLF) ++ content ++ CRLF in
  boundary_of content_type = Some boundary →
  Py.startswith boundary CRLF = false →
  Forall (λ p, Py.find sep (p ++ sep) = Some (length p))
    (before ++ part :: after) →
  Forall (λ q, file_part q = None) after →
  Py.find (CRLF ++ CRLF) ((CRLF ++ hdr) ++ CRLF ++ CRLF)
  = Some (length (CRLF ++ hdr)) →
  part_headers (Py.bytes_strip (CRLF ++ hdr)) !! b "content-disposition"
  = Some value →
  Py.decode_utf8 value = Some disposition →
  disposition_dict disposition !! u "filename" = Some name →
  disposition_dict disposition !! u "name" = Some (u "pdf_file") →
  ∃ f,
    form_of content_type
      (sep ++ Py.framed sep (before ++ part :: after) (b "--" ++ CRLF))
    = Some f ∧
    pdf_file f = Some content ∧ pdf_filename f = Some name.
Proof.
  intros sep part Hbd Hnotcr Hfirst Hafter Hblank Hhdr Hdec Hfn Hname.
  pose proof (file_part_of_segment hdr content _ _ _ Hblank Hhdr Hdec Hfn Hname)
    as Hpart. fold part in Hpart.
  unfold form_of. rewrite Hbd. cbn [mbind option_bind].
  eexists. split; [done|]. fold sep. unfold Py.split.
  assert (Hsep : sep ≠ []) by done.
  pose proof (find_closing _ Hnotcr) as Hclose. fold sep in Hclose.
  clearbody sep part.
  destruct (first_occurrence sep []
              (Py.framed sep (before ++ part :: after) (b "--" ++ CRLF))
              Hsep 0%nat []) as [_ Hstart].
  { change ([] ++ sep) with sep. by rewrite find_go_eq, startswith_refl. }
  change ([] ++ sep ++ ?x) with (sep ++ x) in Hstart. rewrite Hstart.
  rewrite (split_framed sep _ _ Hsep Hfirst Hclose).
  change (reverse [] ++ []) with (@nil byte).
  replace ([] :: (before ++ part :: after) ++ [b "--" ++ CRLF])
    with (([] :: before) ++ part :: (after ++ [b "--" ++ CRLF]))
    by (by rewrite <- !app_assoc).
  apply loop_last_file; [done|].
  apply Forall_app. split; [done|]. by apply Forall_singleton.
Qed.

End Recovery.

Lemma file_part_recovered_witness :
  Web.file_part
    ((CRLF ++ Fixtures.file_headers) ++ (CRLF ++ CRLF)
     ++ Fixtures.awkward_content ++ CRLF)
  = Some (u "scan.pdf", Fixtures.awkward_content).
Proof.
  eapply (file_part_recovered Fixtures.file_headers Fixtures.awkward_content);
    compute_eq.
Defined.

Lemma upload_recovered_witness :
  ∃ f,
    Web.form_of (RT:=Fixtures.runtime) (u "multipart/form-data; boundary=XyZ")
      (b "--XyZ"
       ++ Py.framed (b "--XyZ")
            [Fixtures.dpi_segment;
             (CRLF ++ Fixtures.file_headers) ++ (CRLF ++ CRLF)
             ++ Fixtures.awkward_content ++ CRLF]
            (b "--" ++ CRLF))
    = Some f ∧
    Web.pdf_file f = Some Fixtures.awkward_content ∧
    Web.pdf_filename f = Some (u "scan.pdf").
Proof.
  eapply (upload_recovered (RT:=Fixtures.runtime)
            (u "multipart/form-data; boundary=XyZ") (b "XyZ")
            [Fixtures.dpi_segment] []
            Fixtures.file_headers Fixtures.awkward_content).
  - compute_eq.
  - compute_eq.
  - repeat (constructor; [compute_eq|]). constructor.
  - constructor.
  - compute_eq.
  - compute_eq.
  - compute_eq.
  - compute_eq.
  - compute_eq.
Defined.

(** ** The loop, field by field *)

Section Fields.
Import Web.
Context {RT : Runtime}.

(** One turn of the loop, as three independent assignments. *)
Lemma process_part_fields f p :
  process_part f p
  = {| pdf_file := match file_part p with
                   | Some (_, data) => Some data
                   | None => pdf_file f
                   end;
       pdf_filename := match file_part p with
                       | Some (name, _) => Some name
                       | None => pdf_filename f
                       end;
       ocr_lang := default (ocr_lang f) (lang_of p);
       dpi := default (dpi f) (dpi_of p) |}.
Proof.
  unfold process_part, update_form, file_part, lang_of, dpi_of, field_part.
  destruct f as [pf pn l d].
  destruct (read_part p) as [| | |dict c]; try done.
  destruct (dict !! u "filename") as [fn|]; simpl.
  - by case_bool_decide.
  - destruct (dict !! u "name") as [nm|]; [|done].
    case_bool_decide as E1.
    + subst. rewrite bool_decide_eq_true_2 by done.
      rewrite bool_decide_eq_false_2 by done. simpl.
      by destruct (Py.decode_utf8 c).
    + rewrite (bool_decide_eq_false_2 (Some nm = Some (u "ocr_lang")))
        by congruence.
      simpl. case_bool_decide as E2.
      * subst. rewrite bool_decide_eq_true_2 by done. simpl.
        by destruct (parse_dpi c).
      * by rewrite bool_decide_eq_false_2 by congruence.
Qed.

(** X9. The last language field and the last resolution field that can
    be read win.  The language is the stripped text of the last
    [ocr_lang] field part whose content decodes; the resolution is the
    number of the last [dpi] field part whose content is a number, and
    a later [dpi] field that is not a number does not bring the default
    back. *)
Theorem last_readable_field_wins before p after :
  (∀ text,
     lang_of p = Some text →
     Forall (λ q, lang_of q = None) after →
     ocr_lang (parse_form (before ++ p :: after)) = text) ∧
  (∀ n,
     dpi_of p = Some n →
     Forall (λ q, dpi_of q = None) after →
     dpi (parse_form (before ++ p :: after)) = n).
Proof.
  unfold parse_form. rewrite foldl_app. simpl.
  generalize (foldl process_part form0 before). intros f. split.
  - intros text Hp Hafter.
    assert (Hkeep : ∀ g, ocr_lang (foldl process_part g after) = ocr_lang g).
    { induction Hafter as [|q after Hq _ IH]; intros g; [done|].
      simpl. rewrite IH, process_part_fields. simpl. by rewrite Hq. }
    rewrite Hkeep, process_part_fields. simpl. by rewrite Hp.
  - intros n Hp Hafter.
    assert (Hkeep : ∀ g, dpi (foldl process_part g after) = dpi g).
    { induction Hafter as [|q after Hq _ IH]; intros g; [done|].
      simpl. rewrite IH, process_part_fields. simpl. by rewrite Hq. }
    rewrite Hkeep, process_part_fields. simpl. by rewrite Hp.
Qed.

Lemma filter_length_perm {A} (sel : A → bool) (l l' : list A) :
  l ≡ₚ l' → length (List.filter sel l) = length (List.filter sel l').
Proof.
  induction 1 as [|x l l' _ IH|x y l|l1 l2 l3 _ IH1 _ IH2]; simpl.
  - done.
  - destruct (sel x); simpl; by rewrite IH.
  - by destruct (sel x), (sel y).
  - by rewrite IH1.
Qed.

(** Two segments that do not set the same loop variable can be taken
    in either order. *)
Lemma process_part_commute f p q :
  (file_parts [p; q] ≤ 1)%nat → (lang_parts [p; q] ≤ 1)%nat →
  (dpi_parts [p; q] ≤ 1)%nat →
  process_part (process_part f p) q = process_part (process_part f q) p.
Proof.
  unfold file_parts, lang_parts, dpi_parts. simpl.
  intros Hf Hl Hd. rewrite !process_part_fields. simpl.
  f_equal.
  - destruct (file_part p) as [[]|], (file_part q) as [[]|]; try done.
    rewrite !bool_decide_eq_true_2 in Hf by eauto. simpl in Hf. lia.
  - destruct (file_part p) as [[]|], (file_part q) as [[]|]; try done.
    rewrite !bool_decide_eq_true_2 in Hf by eauto. simpl in Hf. lia.
  - destruct (lang_of p), (lang_of q); try done.
    rewrite !bool_decide_eq_true_2 in Hl by eauto. simpl in Hl. lia.
  - destruct (dpi_of p), (dpi_of q); try done.
    rewrite !bool_decide_eq_true_2 in Hd by eauto. simpl in Hd. lia.
Qed.

Lemma filter_length_cons {A} (sel : A → bool) x (l : list A) :
  (length (List.filter sel l) ≤ length (List.filter sel (x :: l)))%nat.
Proof. simpl. destruct (sel x); simpl; lia. Qed.

Lemma loop_permutation parts parts' :
  parts ≡ₚ parts' →
  (file_parts parts ≤ 1)%nat → (lang_parts parts ≤ 1)%nat →
  (dpi_parts parts ≤ 1)%nat →
  ∀ f, foldl process_part f parts = foldl process_part f parts'.
Proof.
  unfold file_parts, lang_parts, dpi_parts.
  induction 1 as [|x l l' _ IH|x y l|l1 l2 l3 H12 IH1 _ IH2];
    intros Hf Hl Hd f.
  - done.
  - simpl. apply IH.
    + etrans; [apply (filter_length_cons _ x)|done].
    + etrans; [apply (filter_length_cons _ x)|done].
    + etrans; [apply (filter_length_cons _ x)|done].
  - simpl. f_equal. apply process_part_commute;
      unfold file_parts, lang_parts, dpi_parts; simpl in *.
    + destruct (bool_decide (is_Some (file_part y))),
        (bool_decide (is_Some (file_part x))); simpl in *; lia.
    + destruct (bool_decide (is_Some (lang_of y))),
        (bool_decide (is_Some (lang_of x))); simpl in *; lia.
    + destruct (bool_decide (is_Some (dpi_of y))),
        (bool_decide (is_Some (dpi_of x))); simpl in *; lia.
  - rewrite IH1 by done. apply IH2.
    + by rewrite <- (filter_length_perm _ _ _ H12).
    + by rewrite <- (filter_length_perm _ _ _ H12).
    + by rewrite <- (filter_length_perm _ _ _ H12).
Qed.

(** X10. The result of the loop does not depend on the order of the
    parts when at most one segment is a file part, at most one sets the
    language and at most one sets the resolution. *)
Theorem form_independent_of_part_order parts parts' :
  parts ≡ₚ parts' →
  (file_parts parts ≤ 1)%nat →
  (lang_parts parts ≤ 1)%nat →
  (dpi_parts parts ≤ 1)%nat →
  parse_form parts = parse_form parts'.
Proof. intros Hperm Hf Hl Hd. by apply loop_permutation. Qed.

(** X11. A request whose [Content-Length] is absent, or reads zero, has
    nothing read from its body: whatever the body holds, the reply is
    an error and the server is left as it was; for a multipart request
    with a boundary it is the no-file error. *)
Theorem no_content_length_reads_nothing req fid s :
  content_length req = Some 0%Z →
  handle_convert req fid s
  = (ReplyError
       (if negb (Py.startswith (u "multipart/form-data")
                   (default [] (content_type_header req)))
        then InvalidContentType
        else match boundary_of (default [] (content_type_header req)) with
             | None => ServerError
             | Some _ => NoPdfFileUploaded
             end),
     s).
Proof.
  intros Hlen. unfold handle_convert. rewrite Hlen.
  destruct (negb _); [done|].
  assert (rfile_read 0 (rfile req) = Some []) as ->.
  { unfold rfile_read. destruct (Z.ltb_spec (Z.of_N read_limit) 0); [lia|done]. }
  unfold form_of. by destruct (boundary_of _).
Qed.

End Fields.

Lemma last_readable_field_wins_witness :
  Web.dpi
    (Web.parse_form (RT:=Fixtures.runtime)
       ([b ""] ++ Fixtures.dpi_segment
        :: [CRLF ++ b "Content-Disposition: form-data"
            ++ Fixtures.attr "name" "dpi" ++ CRLF ++ CRLF ++ b "high" ++ CRLF]))
  = 150%Z.
Proof.
  refine (proj2 (last_readable_field_wins (RT:=Fixtures.runtime) _ _ _) _ _ _).
  - compute_eq.
  - repeat (constructor; [compute_eq|]). constructor.
Defined.

Lemma form_independent_of_part_order_witness :
  Web.parse_form (RT:=Fixtures.runtime)
    [Fixtures.dpi_segment;
     (CRLF ++ Fixtures.file_headers) ++ (CRLF ++ CRLF) ++ b "%PDF" ++ CRLF]
  = Web.parse_form (RT:=Fixtures.runtime)
      [(CRLF ++ Fixtures.file_headers) ++ (CRLF ++ CRLF) ++ b "%PDF" ++ CRLF;
       Fixtures.dpi_segment].
Proof.
  apply (form_independent_of_part_order (RT:=Fixtures.runtime)).
  - apply Permutation_swap.
  - vm_compute. lia.
  - vm_compute. lia.
  - vm_compute. lia.
Defined.

Lemma no_content_length_reads_nothing_witness :
  Web.handle_convert (RT:=Fixtures.runtime)
    {| Web.content_type_header :=
         Some (u "multipart/form-data; boundary=XyZ");
       Web.content_length_header := None;
       Web.rfile := Web.rfile Fixtures.req_plain |}
    (u "7d1f") Web.server0
  = (Web.ReplyError Web.NoPdfFileUploaded, Web.server0).
Proof.
  rewrite (no_content_length_reads_nothing (RT:=Fixtures.runtime));
    [compute_eq|reflexivity].
Defined.

(** ** Names scoped by the identifier *)

Section Names.
Import Web.
Context {RT : Runtime}.

Lemma upload_name_inj fid1 fid2 name1 name2 :
  length fid1 = length fid2 →
  upload_name fid1 name1 = upload_name fid2 name2 →
  fid1 = fid2 ∧ name1 = name2.
Proof.
  unfold upload_name. intros Hlen Heq.
  apply app_inj_1 in Heq as [-> Heq]; [|done].
  split; [done|]. by apply app_inv_head in Heq.
Qed.

(** X12. Names are scoped by the task identifier.  In a reachable
    state, two threads whose identifiers differ and have the same
    length (as the strings of [uuid4] have) never share the name of
    their upload nor the name of their artifact, even for the same
    original filename. *)
Theorem task_names_do_not_collide s w1 w2 :
  reachable s →
  w1 ∈ threads s → w2 ∈ threads s →
  length (file_id w1) = length (file_id w2) →
  file_id w1 ≠ file_id w2 →
  pdf_path w1 ≠ pdf_path w2 ∧ output_path w1 ≠ output_path w2.
Proof.
  intros Hreach Hin1 Hin2 Hlen Hne.
  pose proof (reachable_entries _ Hreach) as Hall.
  destruct (proj1 (Forall_forall _ _) Hall w1 Hin1)
    as [(Hout1 & pdf1 & Hpdf1 & _) _].
  destruct (proj1 (Forall_forall _ _) Hall w2 Hin2)
    as [(Hout2 & pdf2 & Hpdf2 & _) _].
  rewrite Hout1, Hout2, Hpdf1, Hpdf2.
  split; intros Heq; by apply upload_name_inj in Heq as [? _].
Qed.

End Names.

Lemma registry_entries_are_never_removed_witness :
  is_Some (Web.conversion_tasks (Web.store Fixtures.converted) !! u "7d1f").
Proof.
  refine (registry_entries_are_never_removed (RT:=Fixtures.runtime)
            (Fixtures.drive Fixtures.writes_docx Fixtures.accepted)
            [Web.Work (u "7d1f") Fixtures.writes_docx;
             Web.Work (u "7d1f") Fixtures.writes_docx]
            Fixtures.converted (u "7d1f") _ _).
  - eapply Web.steps_cons; [|eapply Web.steps_cons; [|apply Web.steps_nil]].
    + apply (drive_step (RT:=Fixtures.runtime) Fixtures.writes_docx
               (Fixtures.drive Fixtures.writes_docx Fixtures.accepted)).
      vm_compute. discriminate.
    + apply (drive_step (RT:=Fixtures.runtime) Fixtures.writes_docx
               (Fixtures.drive Fixtures.writes_docx
                  (Fixtures.drive Fixtures.writes_docx Fixtures.accepted))).
      vm_compute. discriminate.
  - eexists. compute_eq.
Defined.

Lemma thread_run_to_completion_witness :
  (Web.run_thread 4 Fixtures.writes_docx Fixtures.spawned
     (Web.store Fixtures.accepted)).1
  = Web.at_pc Fixtures.spawned Web.Done.
Proof.
  rewrite (thread_run_to_completion 4 Fixtures.writes_docx Fixtures.spawned
             (Web.store Fixtures.accepted)); [reflexivity|compute_eq|lia].
Defined.

Lemma accepted_twice_reachable :
  Web.reachable (RT:=Fixtures.runtime) Fixtures.accepted_twice.
Proof.
  exists [Web.Submit Fixtures.req_plain (u "7d1f")
            (Web.ReplyTask (u "7d1f") Web.processing);
          Web.Respond (Web.ReplyTask (u "7d1f") Web.processing);
          Web.Submit Fixtures.req_plain (u "9a0c")
            (Web.ReplyTask (u "9a0c") Web.processing)].
  eapply Web.steps_cons; [exact accepted_step|].
  eapply Web.steps_cons; [apply Web.step_respond; compute_eq|].
  eapply Web.steps_cons; [|apply Web.steps_nil].
  refine (Web.step_submit (Web.answering None Fixtures.accepted)
            Fixtures.req_plain (u "9a0c")
            (Web.ReplyTask (u "9a0c") Web.processing) _ eq_refl _ _);
    [|compute_eq].
  apply Forall_forall. by_decide.
Qed.

Lemma task_names_do_not_collide_witness :
  Web.pdf_path Fixtures.spawned ≠ Web.pdf_path Fixtures.spawned_second.
Proof.
  refine (proj1 (task_names_do_not_collide (RT:=Fixtures.runtime)
                   Fixtures.accepted_twice Fixtures.spawned
                   Fixtures.spawned_second accepted_twice_reachable _ _ _ _)).
  - apply list_elem_of_lookup. exists 0%nat. compute_eq.
  - apply list_elem_of_lookup. exists 1%nat. compute_eq.
  - compute_eq.
  - vm_compute. discriminate.
Defined.

(** ** The counters of a batch run *)

Section Counters.
Import Batch.
Context {ENV : Env}.

(** X13. Only successful items count for the time.  When a run reports,
    every call of [process_file] returned, and the total time is the
    sum, from 0 and in the order of the documents, of the elapsed times
    of the documents whose conversion returned [True]: a document that
    failed or whose engine raised adds nothing, whatever time it took.
    The average is that total over the number of successes, and there
    is none when nothing succeeded. *)
Theorem report_times_count_successes_only
    input_path output_dir lang dpi max_workers rep :
  batch_report input_path output_dir lang dpi max_workers = Return (Some rep) →
  ∃ results,
    Forall2 (λ pdf r, process_file (pdf, output_dir, lang, dpi) = Return r)
      (resolve input_path) results ∧
    total_time rep = sum_times (successful_times results) ∧
    successful rep = length (successful_times results) ∧
    avg_time rep
    = if (0 <? successful rep)%nat
      then Some (total_time rep / inject_Z (Z.of_nat (successful rep)))%Q
      else None.
Proof.
  unfold batch_report, executor_map.
  destruct (dir_ready output_dir); [|done]. simpl negb. cbv iota.
  destruct (resolve input_path) as [|pdf rest] eqn:Hfiles; [done|].
  rewrite <- Hfiles.
  destruct (workers max_workers) as [n|]; [|done].
  destruct (pool_accepts n); [|done].
  destruct (results_of process_file _) as [results|e] eqn:Hres; [|done].
  apply results_of_Return, Forall2_fmap_l in Hres.
  cbn [mbind Exc_bind]. rewrite tally_eq.
  intros Hrep. exists results. split; [exact Hres|].
  assert (length (successful_times results)
          = length (List.filter (λ r, r.1.2) results)) as ->
    by (unfold successful_times; apply length_fmap).
  revert Hrep.
  destruct (length (List.filter (λ r, r.1.2) _)) as [|k] eqn:Hk;
    cbn [Nat.ltb Nat.leb truediv mbind Exc_bind];
    intros [= <-]; cbn [total_time successful avg_time Nat.ltb Nat.leb];
    by rewrite ?Hk.
Qed.


End Counters.

Lemma report_times_count_successes_only_witness :
  ∃ rep,
    Batch.batch_report (ENV:=Fixtures.env) (u "in") None (u "eng") 300 None
    = Batch.Return (Some rep) ∧
    ∃ results,
      Batch.total_time rep = Batch.sum_times (Batch.successful_times results) ∧
      Batch.successful rep = length (Batch.successful_times results).
Proof.
  eexists. split; [compute_eq|].
  destruct (report_times_count_successes_only (ENV:=Fixtures.env)
              (u "in") None (u "eng") 300 None _ ltac:(compute_eq))
    as (results & _ & Htotal & Hcount & _).
  exists results. by split.
Defined.


(** ** The port of the server *)

Section Port.
Import Web.

(** The loop over [n] consecutive ports from [start]. *)
Lemma probe_seqZ bind port p (n : nat) : ∀ start,
  probe bind (seqZ start (Z.of_nat n)) port = Some p ↔
  ((start ≤ p < start + Z.of_nat n)%Z ∧ bind p = Bound ∧
   ∀ q, (start ≤ q < p)%Z → bind q = InUse) ∨
  (p = port ∧ ∀ q, (start ≤ q < start + Z.of_nat n)%Z → bind q = InUse).
Proof.
  induction n as [|n IH]; intros start.
  - simpl. split.
    + intros [= <-]. right. split; [done|]. intros q Hq. lia.
    + intros [(Hp & _)|[-> _]]; [lia|done].
  - rewrite seqZ_cons by lia.
    replace (Z.pred (Z.of_nat (S n))) with (Z.of_nat n) by lia.
    cbn [probe]. destruct (bind start) eqn:Hstart.
    + split.
      * intros [= <-]. left. split; [lia|]. split; [done|]. intros q Hq. lia.
      * intros [(Hp & Hb & Hlow)|[_ Hall]].
        -- destruct (decide (p = start)) as [->|Hne]; [done|].
           specialize (Hlow start). rewrite Hlow in Hstart by lia. done.
        -- specialize (Hall start). rewrite Hall in Hstart by lia. done.
    + rewrite IH. split.
      * intros [(Hp & Hb & Hlow)|[-> Hall]].
        -- left. split; [lia|]. split; [done|]. intros q Hq.
           destruct (decide (q = start)) as [->|Hne]; [done|].
           apply Hlow. lia.
        -- right. split; [done|]. intros q Hq.
           destruct (decide (q = start)) as [->|Hne]; [done|].
           apply Hall. lia.
      * intros [(Hp & Hb & Hlow)|[-> Hall]].
        -- left. destruct (decide (p = start)) as [->|Hne]; [congruence|].
           split; [lia|]. split; [done|]. intros q Hq. apply Hlow. lia.
        -- right. split; [done|]. intros q Hq. apply Hall. lia.
    + split; [done|].
      intros [(Hp & Hb & Hlow)|[_ Hall]].
      * destruct (decide (p = start)) as [->|Hne]; [congruence|].
        specialize (Hlow start). rewrite Hlow in Hstart by lia. done.
      * specialize (Hall start). rewrite Hall in Hstart by lia. done.
Qed.

(** X15. The port the server is created on.  [run_server] settles on
    [p] exactly when [p] is the lowest port from [port] to [port + 99]
    that binds and every port below it, from [port] on, is in use; or
    when all hundred are in use and [p] is [port] itself, on which the
    creation of the server is then attempted all the same.  No port
    from [port + 100] on is ever tried. *)
Theorem server_port_is_lowest_free bind port p :
  choose_port bind port = Some p ↔
  ((port ≤ p < port + 100)%Z ∧ bind p = Bound ∧
   ∀ q, (port ≤ q < p)%Z → bind q = InUse) ∨
  (p = port ∧ ∀ q, (port ≤ q < port + 100)%Z → bind q = InUse).
Proof.
  unfold choose_port. destruct (bind port) eqn:Hport.
  - split.
    + intros [= <-]. left. split; [lia|]. split; [done|]. intros q Hq. lia.
    + intros [(Hp & Hb & Hlow)|[_ Hall]].
      * destruct (decide (p = port)) as [->|Hne]; [done|].
        specialize (Hlow port). rewrite Hlow in Hport by lia. done.
      * specialize (Hall port). rewrite Hall in Hport by lia. done.
  - rewrite (probe_seqZ bind port p 99 (port + 1)). split.
    + intros [(Hp & Hb & Hlow)|[-> Hall]].
      * left. split; [lia|]. split; [done|]. intros q Hq.
        destruct (decide (q = port)) as [->|Hne]; [done|]. apply Hlow. lia.
      * right. split; [done|]. intros q Hq.
        destruct (decide (q = port)) as [->|Hne]; [done|]. apply Hall. lia.
    + intros [(Hp & Hb & Hlow)|[-> Hall]].
      * left. destruct (decide (p = port)) as [->|Hne]; [congruence|].
        split; [lia|]. split; [done|]. intros q Hq. apply Hlow. lia.
      * right. split; [done|]. intros q Hq. apply Hall. lia.
  - split; [done|].
    intros [(Hp & Hb & Hlow)|[_ Hall]].
    + destruct (decide (p = port)) as [->|Hne]; [congruence|].
      specialize (Hlow port). rewrite Hlow in Hport by lia. done.
    + specialize (Hall port). rewrite Hall in Hport by lia. done.
Qed.

End Port.

(** ** Static files *)

Example normpath_collapses :
  Py.normpath (u "a//b/./c/../d/") = u "a/b/d".
Proof. reflexivity. Qed.

Example normpath_keeps_leading_parent :
  Py.normpath (u "a/../../b") = u "../b".
Proof. reflexivity. Qed.

Example normpath_drops_parent_of_root :
  Py.normpath (u "/../../etc/passwd") = u "/etc/passwd".
Proof. reflexivity. Qed.

Example normpath_two_slashes : Py.normpath (u "//a") = u "//a".
Proof. reflexivity. Qed.

Example normpath_three_slashes : Py.normpath (u "///a") = u "/a".
Proof. reflexivity. Qed.

Example normpath_empty : Py.normpath (u "") = u "." ∧ Py.normpath (u "a/..") = u ".".
Proof. split; reflexivity. Qed.

Example normpath_then_lstrip :
  Web.normalized <$> [u "/"; u "//etc/passwd"; u "a..b/c"; u "../.."; u "./"]
  = [u ""; u "etc/passwd"; u "a..b/c"; u "../.."; u "."].
Proof. reflexivity. Qed.

Section Static.
Import Web.

(** A segment is a piece of the text that was split. *)
Lemma split_go_infix {A} `{EqDecision A} (sep : list A) : ∀ s skip cur seg,
  seg ∈ Py.split_go sep skip cur s → (skip ≠ 0%nat → cur = []) →
  ∃ pre post, reverse cur ++ s = pre ++ seg ++ post.
Proof.
  induction s as [|x s IH]; intros skip cur seg Hseg Hcur.
  - apply list_elem_of_singleton in Hseg as ->.
    exists [], []. by rewrite !app_nil_r.
  - simpl in Hseg. destruct skip as [|k].
    + destruct (Py.startswith sep (x :: s)).
      * apply elem_of_cons in Hseg as [->|Hseg].
        { by exists [], (x :: s). }
        destruct (IH _ _ _ Hseg (λ _, eq_refl)) as (pre & post & Heq).
        simpl in Heq. exists (reverse cur ++ x :: pre), post.
        rewrite Heq, <- app_assoc. done.
      * destruct (IH _ _ _ Hseg) as (pre & post & Heq); [done|].
        exists pre, post. rewrite <- Heq, reverse_cons, <- app_assoc. done.
    + rewrite (Hcur ltac:(done)) in *.
      destruct (IH _ _ _ Hseg (λ _, eq_refl)) as (pre & post & Heq).
      simpl in Heq. exists (x :: pre), post. simpl. by rewrite Heq.
Qed.

Lemma contains_infix {A} `{EqDecision A} (p pre post : list A) :
  Py.contains p (pre ++ p ++ post) = true.
Proof.
  induction pre as [|x pre IH].
  - change ([] ++ p ++ post) with (p ++ post).
    replace (Py.contains p (p ++ post))
      with (Py.startswith p (p ++ post)
            || match p ++ post with
               | [] => false
               | _ :: s' => Py.contains p s'
               end) by (by destruct (p ++ post)).
    by rewrite startswith_app.
  - simpl. rewrite IH. apply orb_true_r.
Qed.

Lemma lstrip_head {A} (ws : A → bool) (s : list A) c r :
  Py.lstrip ws s = c :: r → ws c = false.
Proof.
  induction s as [|x s IH]; simpl; [done|].
  destruct (ws x) eqn:E; [done|]. by intros [= <- _].
Qed.

(** X16. A static file is read from inside the script directory.  When
    [serve_static_file] replies with a file, the path it joined to the
    directory of the script and read is relative, and none of its
    components is [..]; the bytes sent are those of that file. *)
Theorem static_file_is_read_inside site file_path content_type data :
  serve_static_file site file_path = StaticFile content_type data →
  Py.startswith (u "/") (normalized file_path) = false ∧
  (u ".." ∉ Py.split (u "/") (normalized file_path)) ∧
  site_isfile site (normalized file_path) = true ∧
  site_read site (normalized file_path) = Some data.
Proof.
  unfold serve_static_file.
  destruct (Py.contains (u "..") (normalized file_path)) eqn:Hdots; [done|].
  destruct (site_isfile site (normalized file_path)) eqn:Hfile; [|done].
  simpl negb. cbv iota.
  destruct (site_read site (normalized file_path)) as [bytes|] eqn:Hread;
    [|done].
  intros [= _ <-]. repeat split; try done.
  - unfold normalized in *.
    destruct (Py.lstrip _ (Py.normpath file_path)) as [|c r] eqn:Hstrip; [done|].
    apply lstrip_head, bool_decide_eq_false in Hstrip.
    change (u "/") with [47%N]. simpl.
    rewrite bool_decide_eq_false_2; [done|congruence].
  - intros Hin. unfold Py.split in Hin.
    apply split_go_infix in Hin as (pre & post & Heq); [|done].
    change (reverse [] ++ normalized file_path)
      with (normalized file_path) in Heq.
    rewrite Heq, contains_infix in Hdots. done.
Qed.

End Static.

Lemma static_file_is_read_inside_witness :
  u ".." ∉ Py.split (u "/") (Web.normalized (u "static/./css/../style.css")).
Proof.
  refine (proj1 (proj2 (static_file_is_read_inside Fixtures.site
                          (u "static/./css/../style.css") (u "text/css")
                          (b "body {}") _))).
  compute_eq.
Defined.

(** ** The document the engine writes *)

Example page_of_two_paragraphs :
  Ocr.page 1 (u "Dear Sir," ++ [10; 10; 32; 10; 10]%N
              ++ u "thank you" ++ [10%N] ++ u "for the letter.")
  = [Ocr.PageBreak; Ocr.Heading (u "Page 2") 2;
     Ocr.Paragraph (u "Dear Sir,");
     Ocr.Paragraph (u "thank you for the letter.")].
Proof. reflexivity. Qed.

Example page_without_text : Ocr.page 0 [] = [Ocr.Heading (u "Page 1") 2].
Proof. reflexivity. Qed.

Section Document.
Import Ocr.

Lemma mjoin_cons {A} (x : list A) (l : list (list A)) :
  mjoin (x :: l) = x ++ mjoin l.
Proof. done. Qed.

Lemma headings_app doc doc' : headings (doc ++ doc') = headings doc ++ headings doc'.
Proof. apply omap_app. Qed.

Lemma page_breaks_app doc doc' :
  page_breaks (doc ++ doc') = (page_breaks doc + page_breaks doc')%nat.
Proof. unfold page_breaks. by rewrite List.filter_app, length_app. Qed.

Lemma paragraphs_only text :
  headings (paragraphs text) = [] ∧ page_breaks (paragraphs text) = 0%nat.
Proof.
  unfold paragraphs.
  induction (List.filter _ (Py.split [10; 10]%N text)) as [|p l [IH1 IH2]];
    [done|].
  split; [exact IH1|exact IH2].
Qed.

Lemma headings_page i text :
  headings (page i text) = [(u "Page " ++ str_of_nat (i + 1), 2%Z)].
Proof.
  unfold page. rewrite headings_app. simpl.
  rewrite (proj1 (paragraphs_only text)). by destruct (0 <? i)%nat.
Qed.

Lemma page_breaks_page i text :
  page_breaks (page i text) = if (0 <? i)%nat then 1%nat else 0%nat.
Proof.
  unfold page. rewrite page_breaks_app.
  change (page_breaks (Heading ?t ?l :: ?d)) with (page_breaks d).
  rewrite (proj2 (paragraphs_only text)). by destruct (0 <? i)%nat.
Qed.

(** The pages from number [k] on. *)
Lemma headings_from text_results : ∀ k,
  headings (mjoin (imap (λ i, page (k + i)) text_results))
  = imap (λ i _, (u "Page " ++ str_of_nat (k + i + 1), 2%Z)) text_results.
Proof.
  induction text_results as [|text rest IH]; intros k; [done|].
  rewrite !imap_cons, mjoin_cons.
  rewrite headings_app, headings_page. simpl. f_equal.
  rewrite (imap_ext _ (λ i, page (S k + i))), IH.
  - apply imap_ext. intros i x _. unfold compose.
    by replace (k + S i)%nat with (S k + i)%nat by lia.
  - intros i x _. unfold compose. f_equal. lia.
Qed.

Lemma page_breaks_from text_results : ∀ k, (0 < k)%nat →
  page_breaks (mjoin (imap (λ i, page (k + i)) text_results))
  = length text_results.
Proof.
  induction text_results as [|text rest IH]; intros k Hk; [done|].
  rewrite imap_cons, mjoin_cons.
  rewrite page_breaks_app, page_breaks_page.
  rewrite (imap_ext _ (λ i, page (S k + i))), IH; [|lia|].
  - destruct (0 <? k + 0)%nat eqn:E; [done|].
    apply Nat.ltb_ge in E. lia.
  - intros i x _. unfold compose. f_equal. lia.
Qed.

Lemma in_document blk text_results : ∀ k,
  blk ∈ mjoin (imap (λ i, page (k + i)) text_results) →
  ∃ i text, text ∈ text_results ∧ blk ∈ page i text.
Proof.
  induction text_results as [|text rest IH]; intros k; [by intros ?%elem_of_nil|].
  rewrite imap_cons, mjoin_cons. intros [Hhere|Hrest]%elem_of_app.
  - exists (k + 0)%nat, text. split; [apply list_elem_of_here|done].
  - rewrite (imap_ext _ (λ i, page (S k + i))) in Hrest.
    + destruct (IH _ Hrest) as (i & t & Hin & Hblk).
      exists i, t. split; [by apply list_elem_of_further|done].
    + intros i x _. unfold compose. f_equal. lia.
Qed.

Lemma strip_nonempty {A} (ws : A → bool) (s : list A) :
  Py.strip ws s ≠ [] → ∃ c, c ∈ s ∧ ws c = false.
Proof.
  unfold Py.strip. destruct (Py.lstrip ws s) as [|c r] eqn:E; [done|].
  intros _. exists c. split.
  - apply (lstrip_subset ws). rewrite E. apply list_elem_of_here.
  - by apply lstrip_head in E.
Qed.

(** X17. The shape of the document.  Whatever the recognised texts,
    the document has one heading of level 2 for each page, [Page 1] to
    [Page n] in order, and a page break before each page but the
    first.  Each paragraph is a piece of the text of a page between
    blank lines with its line breaks turned into spaces: it has no
    line break and is not blank. *)
Theorem document_has_a_heading_per_page text_results :
  headings (document text_results)
  = imap (λ i _, (u "Page " ++ str_of_nat (i + 1), 2%Z)) text_results ∧
  page_breaks (document text_results) = (length text_results - 1)%nat ∧
  ∀ text, Paragraph text ∈ document text_results →
    (∃ page_text para_text,
       page_text ∈ text_results ∧
       para_text ∈ Py.split [10; 10]%N page_text ∧
       text = replace_newlines para_text) ∧
    (10%N ∉ text) ∧ Py.str_strip text ≠ [].
Proof.
  unfold document. split; [|split].
  - apply (headings_from text_results 0).
  - destruct text_results as [|text rest]; [done|].
    rewrite imap_cons, mjoin_cons.
    rewrite page_breaks_app, page_breaks_page.
    rewrite (imap_ext _ (λ i, page (1 + i))); [|done].
    rewrite page_breaks_from by lia. simpl. lia.
  - intros text Hin.
    apply (in_document _ _ 0%nat) in Hin as (i & page_text & Hpage & Hin).
    unfold page in Hin.
    apply elem_of_app in Hin as [Hin|Hin].
    { destruct (0 <? i)%nat; [|by apply elem_of_nil in Hin].
      by apply list_elem_of_singleton in Hin. }
    apply elem_of_cons in Hin as [?|Hin]; [done|].
    unfold paragraphs in Hin.
    apply list_elem_of_fmap in Hin as (para_text & [= ->] & Hpara).
    apply list_elem_of_In, List.filter_In in Hpara as [Hsplit Hblank].
    apply list_elem_of_In in Hsplit.
    apply bool_decide_eq_true in Hblank.
    split; [by exists page_text, para_text|]. split.
    + unfold replace_newlines.
      intros (c & Hc & _)%list_elem_of_fmap.
      destruct (c =? 10)%N eqn:E; [done|].
      apply N.eqb_neq in E. congruence.
    + apply strip_nonempty in Hblank as (c & Hc & Hws).
      intros Hnil.
      assert (c ∈ Py.str_strip (replace_newlines para_text)) as Hkept.
      { apply strip_keeps; [|done]. unfold replace_newlines.
        apply list_elem_of_fmap. exists c. split; [|done].
        destruct (c =? 10)%N eqn:E; [|done].
        apply N.eqb_eq in E. by subst. }
      rewrite Hnil in Hkept. by apply elem_of_nil in Hkept.
Qed.

Context {ENG : Engine}.

(** X18. A conversion that succeeds has saved a page for every page of
    the PDF.  When [convert_pdf_to_word] returns [True], the input
    exists, is a file and has the suffix [.pdf] in some case, Tesseract
    is set up, the PDF was rasterised into at least one image, and the
    document that was saved has exactly one heading for each image,
    also for those on which recognition raised; the save succeeded. *)
Theorem saved_document_covers_every_page pdf_path output_path lang dpi out doc :
  convert_pdf_to_word pdf_path output_path lang dpi = Saved out doc →
  path_exists pdf_path = true ∧ path_is_file pdf_path = true ∧
  Py.str_lower (path_suffix pdf_path) = u ".pdf" ∧
  setup_tesseract = true ∧ doc_save out = true ∧
  ∃ images,
    convert_from_path pdf_path dpi = Some images ∧ images ≠ [] ∧
    doc = document (perform_ocr images lang) ∧
    headings doc
    = imap (λ i _, (u "Page " ++ str_of_nat (i + 1), 2%Z)) images.
Proof.
  unfold convert_pdf_to_word.
  destruct (path_exists pdf_path); [|done].
  destruct (path_is_file pdf_path); [|done].
  case_bool_decide as Hsuffix; [|done]. simpl negb. cbv iota.
  destruct (match output_path with
            | Some o => _
            | None => _
            end) as [out'|]; [|done].
  destruct setup_tesseract; [|done]. simpl negb. cbv iota.
  destruct (convert_from_path pdf_path dpi) as [[|image images]|] eqn:Himages;
    [done| |done].
  unfold create_word_document.
  destruct (doc_save out') eqn:Hsave; [|done].
  intros [= <- <-]. repeat split; try done.
  exists (image :: images). repeat split; try done.
  unfold document. rewrite (headings_from _ 0).
  unfold perform_ocr. rewrite !imap_cons. f_equal. by rewrite imap_fmap.
Qed.

End Document.

Lemma saved_document_covers_every_page_witness :
  Py.str_lower (Ocr.path_suffix (Engine:=Fixtures.engine) (u "scan.PDF"))
  = u ".pdf".
Proof.
  refine (proj1 (proj2 (proj2
            (saved_document_covers_every_page (ENG:=Fixtures.engine)
               (u "scan.PDF") None (u "eng") 300 _ _ _)))).
  compute_eq.
Defined.

Lemma download_decided_by_first_match_witness :
  Web.handle_download Fixtures.listing (u "7d1f")
  = Web.Served (u "7d1f_report.docx") (b "PK docx").
Proof.
  apply (proj1 (download_decided_by_first_match Fixtures.listing (u "7d1f"))).
  exists [(u "03c2_notes.docx", Some (b "PK notes"))],
         [(u "7d1f_report_v2.docx", Some (b "PK later"))].
  split; [reflexivity|]. split; [compute_eq|].
  repeat (constructor; [compute_eq|]). constructor.
Defined.

Lemma server_port_is_lowest_free_witness :
  ((8080 ≤ 8082 < 8080 + 100)%Z ∧ Fixtures.bind 8082 = Web.Bound ∧
   ∀ q, (8080 ≤ q < 8082)%Z → Fixtures.bind q = Web.InUse) ∨
  (8082%Z = 8080%Z ∧
   ∀ q, (8080 ≤ q < 8080 + 100)%Z → Fixtures.bind q = Web.InUse).
Proof.
  apply (proj1 (server_port_is_lowest_free Fixtures.bind 8080 8082)).
  compute_eq.
Defined.

Lemma document_has_a_heading_per_page_witness :
  Ocr.page_breaks (Ocr.document [u "first"; []; u "third"]) = 2%nat.
Proof.
  exact (proj1 (proj2 (document_has_a_heading_per_page
                         [u "first"; []; u "third"]))).
Defined.

